(** * LarmSaleCalc: the plan engine of [alarm_sales_app.py]

    A shallow embedding of the pricing arithmetic, the two plan matchers,
    the bonus table and the commission block of the Streamlit script,
    followed by the properties the specification states about them.

    Numbers.  Python [int]s are [Z].  Python [float]s are modelled in three
    ways.  The top-level definitions take them as exact rationals [Q],
    compared with [==]; they carry the properties that hold of the float
    code as they stand (comparisons, integer parts, equations that follow
    the code operation by operation).  Module [Rounded] follows every float
    operation of the plan generator and of the discount matcher by a
    rounding function [rnd : Q -> Q]; its theorems hold for every [rnd],
    or for every [rnd] that is [monotone] and [nearly_exact], as rounding
    to binary64 is on finite results, and they carry the properties in
    which rounding matters.  Module [Binary64] evaluates the plan generator
    and the discount matcher with the kernel's binary64 numbers on concrete
    inputs.

    Errors.  Python exceptions are the [Raise] branch of [result]. *)

From Stdlib Require Import ZArith QArith Qabs List Sorted String Bool Lia Lqa.
From Stdlib Require Import Floats.
Import ListNotations.

Open Scope string_scope.
Open Scope Z_scope.
Open Scope Q_scope.

Set Implicit Arguments.

(** ** Exceptions *)

Inductive PyError : Type :=
| ZeroDivisionError   (* x / 0 *)
| ValueError          (* min() or max() of an empty sequence *)
| StopIteration       (* next() on an exhausted generator *)
| IndexError.         (* l[0] on an empty list *)

Inductive result (A : Type) : Type :=
| Ok (a : A)
| Raise (e : PyError).

Arguments Ok {A} a.
Arguments Raise {A} e.

Definition bind {A B : Type} (r : result A) (k : A -> result B) : result B :=
  match r with
  | Ok a => k a
  | Raise e => Raise e
  end.

Notation "x <- r ;; k" := (bind r (fun x => k))
  (at level 61, r at next level, right associativity).
Notation "' pat <- r ;; k" := (bind r (fun x => match x with pat => k end))
  (at level 61, pat pattern, r at next level, right associativity).

(** ** Constants (lines 9-41) *)

Definition BASE_OVER_70 : Z := 30990.
Definition BASE_UNDER_70 : Z := 32400.

Definition EXTRA_MAGNET : Z := 1000.
Definition EXTRA_CAMERA : Z := 2200.
Definition EXTRA_FIRE : Z := 2000.

Definition START_FEE : Z := 594.
Definition ADMIN_MONTHLY : Z := 49.
Definition INSTALLATION_COST : Z := 5000.

Definition PAYMENT_OPTIONS : list (string * Z) :=
  [ ("90 dagar (3 mån)", 3%Z);
    ("12 månader", 12%Z);
    ("24 månader", 24%Z);
    ("36 månader", 36%Z);
    ("60 månader", 60%Z);
    ("72 månader", 72%Z);
    ("120 månader", 120%Z) ].

Definition BASE_COMMISSION_PER_DEAL : Z := 2500.
Definition INSTALL_COMMISSION_RATE : Q := 20 # 100.
Definition UPSELL_COMMISSION_RATE : Q := 10 # 100.
Definition COMPENSATION_PENALTY_RATE : Q := 20 # 100.
Definition MILE_COMP : Q := 2550 # 100.

(** ** Plans *)

(** The dict built at lines 55-60. *)
Record Plan : Type := mkPlan {
  label : string;
  months : Z;
  monthly : Q;
  total : Q
}.

(** [a / b] with an [int] divisor: true division, raising on zero. *)
Definition truediv (a : Q) (b : Z) : result Q :=
  if (b =? 0)%Z then Raise ZeroDivisionError else Ok (a / inject_Z b).

(** The loop of [compute_plans] over an arbitrary option list. *)
Fixpoint compute_plans_over (options : list (string * Z)) (financed_amount : Q)
  : result (list Plan) :=
  match options with
  | [] => Ok []
  | (label, months) :: rest =>
      monthly_fin <- truediv financed_amount months ;;
      let monthly_total := monthly_fin + inject_Z ADMIN_MONTHLY in
      let total_cost := monthly_total * inject_Z months + inject_Z START_FEE in
      plans <- compute_plans_over rest financed_amount ;;
      Ok (mkPlan label months monthly_total total_cost :: plans)
  end.

Definition compute_plans (financed_amount : Q) : result (list Plan) :=
  compute_plans_over PAYMENT_OPTIONS financed_amount.

(** ** [min], [max] and [list.sort] with a key

    [ltb] is Python's [<] on keys.  [min] and [max] keep the first of several
    extremal items: the running best is replaced only on a strict
    improvement.  [list.sort] is stable; insertion from the right, placing
    an item before the first one it does not exceed, is a stable sort. *)

Section Keyed.

Variables (A K : Type) (ltb : K -> K -> bool) (key : A -> K).

Fixpoint min_scan (best : A) (l : list A) : A :=
  match l with
  | [] => best
  | x :: rest =>
      if ltb (key x) (key best) then min_scan x rest else min_scan best rest
  end.

Definition py_min (l : list A) : result A :=
  match l with
  | [] => Raise ValueError
  | x :: rest => Ok (min_scan x rest)
  end.

Fixpoint max_scan (best : A) (l : list A) : A :=
  match l with
  | [] => best
  | x :: rest =>
      if ltb (key best) (key x) then max_scan x rest else max_scan best rest
  end.

Definition py_max (l : list A) : result A :=
  match l with
  | [] => Raise ValueError
  | x :: rest => Ok (max_scan x rest)
  end.

Fixpoint insert_by (x : A) (l : list A) : list A :=
  match l with
  | [] => [x]
  | y :: rest =>
      if ltb (key y) (key x) then y :: insert_by x rest else x :: y :: rest
  end.

Fixpoint sort_by (l : list A) : list A :=
  match l with
  | [] => []
  | x :: rest => insert_by x (sort_by rest)
  end.

(** [l[0]] *)
Definition item0 (l : list A) : result A :=
  match l with
  | [] => Raise IndexError
  | x :: _ => Ok x
  end.

(** [next(g)] on a generator yielding the items of [l] *)
Definition py_next (l : list A) : result A :=
  match l with
  | [] => Raise StopIteration
  | x :: _ => Ok x
  end.

End Keyed.

(** [<] on floats and on [(int, float)] tuples. *)
Definition Qltb (a b : Q) : bool := negb (Qle_bool b a).

Definition tuple_ltb (a b : Z * Q) : bool :=
  if (fst a =? fst b)%Z then Qltb (snd a) (snd b) else (fst a <? fst b)%Z.

(** ** The matchers (lines 65-97) *)

Definition choose_best_plan_for_budget (plans : list Plan) (target_monthly : Q)
  : result (Plan * string) :=
  let under_or_equal :=
    filter (fun p => Qle_bool (monthly p) target_monthly) plans in
  match under_or_equal with
  | _ :: _ =>
      best <- py_max Qltb monthly under_or_equal ;;
      Ok (best, "within")
  | [] =>
      best <- py_min Qltb monthly plans ;;
      Ok (best, "above")
  end.

Definition distance (target_monthly : Q) (p : Plan) : Q :=
  Qabs (monthly p - target_monthly).

Definition choose_discount_plan_to_match_price
    (plans : list Plan) (target_monthly tolerance : Q) : result (Plan * bool) :=
  let lower := target_monthly - tolerance in
  let upper := target_monthly + tolerance in
  let candidates :=
    filter (fun p => Qle_bool lower (monthly p) && Qle_bool (monthly p) upper)
           plans in
  match candidates with
  | _ :: _ =>
      let sorted :=
        sort_by tuple_ltb (fun p => (months p, distance target_monthly p))
                candidates in
      first <- item0 sorted ;;
      Ok (first, true)
  | [] =>
      nearest <- py_min Qltb (distance target_monthly) plans ;;
      Ok (nearest, false)
  end.

(** ** The bonus table (lines 241-255) *)

Definition bonus_for_net_sales (net_sales : Z) : Z :=
  if (net_sales >=? 50)%Z then 50000
  else if (net_sales >=? 40)%Z then 40000
  else if (net_sales >=? 30)%Z then 30000
  else if (net_sales >=? 20)%Z then 15000
  else if (net_sales >=? 15)%Z then 10000
  else if (net_sales >=? 10)%Z then 5000
  else 0.

(** ** Offer arithmetic of the script (lines 345-351, 456-462) *)

(** Truth value of an [int]. *)
Definition truthy (n : Z) : bool := negb (n =? 0)%Z.

Definition extras_total_full (magnet_count camera_count fire_count : Z) : Z :=
  (magnet_count * EXTRA_MAGNET
   + camera_count * EXTRA_CAMERA
   + fire_count * EXTRA_FIRE)%Z.

Definition extras_charged (magnet_count camera_count fire_count : Z)
    (charged_magnet charged_camera charged_fire : bool) : Z :=
  ((if charged_magnet then magnet_count * EXTRA_MAGNET else 0)
   + (if charged_camera then camera_count * EXTRA_CAMERA else 0)
   + (if charged_fire then fire_count * EXTRA_FIRE else 0))%Z.

Definition financed_full (base_price magnet_count camera_count fire_count : Z)
  : Z :=
  (base_price + extras_total_full magnet_count camera_count fire_count
   + INSTALLATION_COST)%Z.

Definition financed_discount (base_price magnet_count camera_count fire_count : Z)
    (charged_magnet charged_camera charged_fire : bool) : Z :=
  (base_price
   + extras_charged magnet_count camera_count fire_count
                    charged_magnet charged_camera charged_fire
   + INSTALLATION_COST)%Z.

(** ** Commission block (lines 687-749) *)

Record Commission : Type := mkCommission {
  base_comm : Q;
  upsell_comm : Q;
  install_comm : Q;
  total_before_comp : Q;
  has_comp : bool;
  total_after_comp : Q;
  comp_penalty : Q;
  mile_comp_total : Q;
  total_with_miles : Q      (* total_after_comp + mile_comp_total, line 748 *)
}.

Definition commission (magnet_count camera_count fire_count : Z)
    (charged_magnet charged_camera charged_fire : bool)
    (discount_plan : option Plan) (miles_driven : Q) : Commission :=
  let extras_charged_final :=
    extras_charged magnet_count camera_count fire_count
                   charged_magnet charged_camera charged_fire in
  let base_comm := inject_Z BASE_COMMISSION_PER_DEAL in
  let upsell_comm := inject_Z extras_charged_final * UPSELL_COMMISSION_RATE in
  let install_comm := inject_Z INSTALLATION_COST * INSTALL_COMMISSION_RATE in
  let total_before_comp := base_comm + upsell_comm + install_comm in
  let has_comp :=
    (truthy magnet_count && negb charged_magnet)
    || (truthy camera_count && negb charged_camera)
    || (truthy fire_count && negb charged_fire)
    || (match discount_plan with Some _ => true | None => false end) in
  let total_after_comp :=
    if has_comp then total_before_comp * (1 - COMPENSATION_PENALTY_RATE)
    else total_before_comp in
  let comp_penalty :=
    if has_comp then total_before_comp - total_after_comp else 0 in
  let mile_comp_total := miles_driven * MILE_COMP in
  mkCommission base_comm upsell_comm install_comm total_before_comp has_comp
               total_after_comp comp_penalty mile_comp_total
               (total_after_comp + mile_comp_total).

(** ** One run of the script *)

(** What the sidebar widgets return (lines 273-341).  A [bjud_*] checkbox is
    only evaluated when its count is positive. *)
Record Sidebar : Type := mkSidebar {
  over_70_chosen : bool;
  magnet_count : Z;
  camera_count : Z;
  fire_count : Z;
  bjud_magnet : bool;
  bjud_camera : bool;
  bjud_fire : bool;
  selected_term_label : string;
  desired_monthly : Q;
  tolerance : Z;
  net_sales_month : Z;
  miles_driven : Q
}.

Definition base_price (s : Sidebar) : Z :=
  if over_70_chosen s then BASE_OVER_70 else BASE_UNDER_70.

Definition charged_magnet (s : Sidebar) : bool :=
  (magnet_count s >? 0)%Z && negb (bjud_magnet s).
Definition charged_camera (s : Sidebar) : bool :=
  (camera_count s >? 0)%Z && negb (bjud_camera s).
Definition charged_fire (s : Sidebar) : bool :=
  (fire_count s >? 0)%Z && negb (bjud_fire s).

Definition term_labels : list string := map fst PAYMENT_OPTIONS.

(** The condition of the discount branch (lines 452-455). *)
Definition discount_branch (s : Sidebar) : bool :=
  (truthy (magnet_count s) || truthy (camera_count s) || truthy (fire_count s))
  && (negb (charged_magnet s) || negb (charged_camera s)
      || negb (charged_fire s)).

Record Outcome : Type := mkOutcome {
  plans_full : list Plan;
  selected_plan_full : Plan;
  best_budget_plan : Plan;
  budget_status : string;
  discount_plan : option Plan;
  offer_plan_for_calc : Plan;
  deal_commission : Commission;
  monthly_bonus : Z
}.

Definition run (s : Sidebar) : result Outcome :=
  let financed_full :=
    financed_full (base_price s) (magnet_count s) (camera_count s)
                  (fire_count s) in
  plans_full <- compute_plans (inject_Z financed_full) ;;
  selected_plan_full <-
    py_next (filter (fun p => String.eqb (label p) (selected_term_label s))
                    plans_full) ;;
  '(best_budget_plan, budget_status) <-
    choose_best_plan_for_budget plans_full (desired_monthly s) ;;
  discount_plan <-
    (if discount_branch s then
       let financed_discount :=
         financed_discount (base_price s) (magnet_count s) (camera_count s)
                           (fire_count s) (charged_magnet s)
                           (charged_camera s) (charged_fire s) in
       plans_discount <- compute_plans (inject_Z financed_discount) ;;
       '(discount_plan, within_tol) <-
         choose_discount_plan_to_match_price
           plans_discount (desired_monthly s) (inject_Z (tolerance s)) ;;
       Ok (Some discount_plan)
     else Ok None) ;;
  let offer_plan_for_calc :=
    match discount_plan with
    | Some p => p
    | None => selected_plan_full
    end in
  (* a plan is a non-empty dict, so [if offer_plan_for_calc:] is taken *)
  let deal_commission :=
    commission (magnet_count s) (camera_count s) (fire_count s)
               (charged_magnet s) (charged_camera s) (charged_fire s)
               discount_plan (miles_driven s) in
  Ok (mkOutcome plans_full selected_plan_full best_budget_plan budget_status
                discount_plan offer_plan_for_calc deal_commission
                (bonus_for_net_sales (net_sales_month s))).

(** ** Binary64 evaluation of the plan generator and the discount matcher *)

Module Binary64.

Record FPlan : Type := mkFPlan {
  flabel : string;
  fmonths : Z;
  fmonthly : float;
  ftotal : float
}.

(** [float(n)] for a small [int]. *)
Definition of_int (n : Z) : float := PrimFloat.of_uint63 (Uint63.of_Z n).

Definition compute_plans (financed_amount : float) : list FPlan :=
  map (fun '(label, months) =>
         let monthly_fin := (financed_amount / of_int months)%float in
         let monthly_total := (monthly_fin + of_int ADMIN_MONTHLY)%float in
         let total_cost :=
           (monthly_total * of_int months + of_int START_FEE)%float in
         mkFPlan label months monthly_total total_cost)
      PAYMENT_OPTIONS.

(** The financed amounts of the standard offer (line 351) for both age
    brackets and up to 7 extras of each kind. *)
Definition sidebar_amounts : list Z :=
  flat_map
    (fun base_price =>
       flat_map
         (fun magnet_count =>
            flat_map
              (fun camera_count =>
                 map (fun fire_count =>
                        financed_full base_price magnet_count camera_count
                                      fire_count)
                     [0; 1; 2; 3; 4; 5; 6; 7]%Z)
              [0; 1; 2; 3; 4; 5; 6; 7]%Z)
         [0; 1; 2; 3; 4; 5; 6; 7]%Z)
    [BASE_OVER_70; BASE_UNDER_70].

Fixpoint strictly_decreasing (l : list float) : bool :=
  match l with
  | a :: (b :: _) as rest => (b <? a)%float && strictly_decreasing rest
  | _ => true
  end.

Definition tuple_ltb (a b : Z * float) : bool :=
  if (fst a =? fst b)%Z then (snd a <? snd b)%float else (fst a <? fst b)%Z.

Definition distance (target_monthly : float) (p : FPlan) : float :=
  abs (fmonthly p - target_monthly).

Definition choose_discount_plan_to_match_price
    (plans : list FPlan) (target_monthly tolerance : float)
  : result (FPlan * bool) :=
  let lower := (target_monthly - tolerance)%float in
  let upper := (target_monthly + tolerance)%float in
  let candidates :=
    filter (fun p => (lower <=? fmonthly p)%float
                     && (fmonthly p <=? upper)%float)
           plans in
  match candidates with
  | _ :: _ =>
      let sorted :=
        sort_by tuple_ltb (fun p => (fmonths p, distance target_monthly p))
                candidates in
      first <- item0 sorted ;;
      Ok (first, true)
  | [] =>
      nearest <- py_min PrimFloat.ltb (distance target_monthly) plans ;;
      Ok (nearest, false)
  end.

End Binary64.

(** ** The arithmetic with rounding

    Every float operation of the source is the exact operation followed by
    rounding to the nearest binary64 number.  In [Rounded] that rounding is
    the parameter [rnd] (overflow to infinity and NaN are left out); the
    definitions above are the case where no operation rounds.  Comparisons,
    [abs] and integer arithmetic are exact. *)

Module Rounded.

Section Rounding.

Variable rnd : Q -> Q.

Definition truediv (a : Q) (b : Z) : result Q :=
  if (b =? 0)%Z then Raise ZeroDivisionError else Ok (rnd (a / inject_Z b)).

Fixpoint compute_plans_over (options : list (string * Z)) (financed_amount : Q)
  : result (list Plan) :=
  match options with
  | [] => Ok []
  | (label, months) :: rest =>
      monthly_fin <- truediv financed_amount months ;;
      let monthly_total := rnd (monthly_fin + inject_Z ADMIN_MONTHLY) in
      let total_cost :=
        rnd (rnd (monthly_total * inject_Z months) + inject_Z START_FEE) in
      plans <- compute_plans_over rest financed_amount ;;
      Ok (mkPlan label months monthly_total total_cost :: plans)
  end.

Definition compute_plans (financed_amount : Q) : result (list Plan) :=
  compute_plans_over PAYMENT_OPTIONS financed_amount.

Definition distance (target_monthly : Q) (p : Plan) : Q :=
  Qabs (rnd (monthly p - target_monthly)).

Definition choose_discount_plan_to_match_price
    (plans : list Plan) (target_monthly tolerance : Q) : result (Plan * bool) :=
  let lower := rnd (target_monthly - tolerance) in
  let upper := rnd (target_monthly + tolerance) in
  let candidates :=
    filter (fun p => Qle_bool lower (monthly p) && Qle_bool (monthly p) upper)
           plans in
  match candidates with
  | _ :: _ =>
      let sorted :=
        sort_by tuple_ltb (fun p => (months p, distance target_monthly p))
                candidates in
      first <- item0 sorted ;;
      Ok (first, true)
  | [] =>
      nearest <- py_min Qltb (distance target_monthly) plans ;;
      Ok (nearest, false)
  end.

(** Membership in the band the code computes. *)
Definition in_band (target tolerance : Q) (p : Plan) : Prop :=
  rnd (target - tolerance) <= monthly p
  /\ monthly p <= rnd (target + tolerance).

(** What the discount matcher does on one plan list, in the quantities the
    code computes. *)
Definition discount_matcher_spec (plans : list Plan) (target tolerance : Q)
  : Prop :=
  ((exists p, In p plans /\ in_band target tolerance p) ->
   exists first,
     choose_discount_plan_to_match_price plans target tolerance
     = Ok (first, true)
     /\ In first plans
     /\ in_band target tolerance first
     /\ forall c, In c plans -> in_band target tolerance c ->
                  (months first <= months c)%Z
                  /\ (months c = months first ->
                      distance target first <= distance target c))
  /\
  (~ (exists p, In p plans /\ in_band target tolerance p) ->
   exists nearest,
     choose_discount_plan_to_match_price plans target tolerance
     = Ok (nearest, false)
     /\ In nearest plans
     /\ forall q, In q plans -> distance target nearest <= distance target q).

End Rounding.

End Rounded.

(** What rounding to binary64 guarantees: it keeps the order, and on the
    positive normal range it moves a number by at most the fraction
    [unit_roundoff] = 2^-53 of itself. *)

Definition unit_roundoff : Q := 1 # 9007199254740992.
Definition min_normal : Q := 1 / inject_Z (2 ^ 1022).
Definition max_float : Q := inject_Z (2 ^ 1024 - 2 ^ 971).

Definition monotone (rnd : Q -> Q) : Prop :=
  forall x y, x <= y -> rnd x <= rnd y.

Definition nearly_exact (rnd : Q -> Q) : Prop :=
  forall x,
    min_normal <= x -> x <= max_float ->
    (1 - unit_roundoff) * x <= rnd x /\ rnd x <= (1 + unit_roundoff) * x.

(** ** Discount figures of the script (lines 447-481) *)

(** [a / b] with a [float] divisor. *)
Definition truediv_float (a b : Q) : result Q :=
  if Qeq_bool b 0 then Raise ZeroDivisionError else Ok (a / b).

(** The variables the discount section leaves behind; [offered_plan] is
    [discount_plan]. *)
Record DiscountFigures : Type := mkDiscountFigures {
  offered_plan : option Plan;
  discount_amount_total : Q;
  discount_percent_total : Q;
  discount_percent_extras : Q
}.

Definition discount_section (s : Sidebar) (selected_plan_full : Plan)
  : result DiscountFigures :=
  if discount_branch s then
    let extras_total_full :=
      extras_total_full (magnet_count s) (camera_count s) (fire_count s) in
    let extras_charged :=
      extras_charged (magnet_count s) (camera_count s) (fire_count s)
                     (charged_magnet s) (charged_camera s) (charged_fire s) in
    let financed_discount :=
      (base_price s + extras_charged + INSTALLATION_COST)%Z in
    plans_discount <- compute_plans (inject_Z financed_discount) ;;
    '(discount_plan, within_tol) <-
      choose_discount_plan_to_match_price
        plans_discount (desired_monthly s) (inject_Z (tolerance s)) ;;
    let discount_amount_total :=
      total selected_plan_full - total discount_plan in
    discount_percent_total <-
      (if Qltb 0 (total selected_plan_full) then
         ratio <- truediv_float discount_amount_total
                                (total selected_plan_full) ;;
         Ok (ratio * 100)
       else Ok 0) ;;
    let extras_discount_value := (extras_total_full - extras_charged)%Z in
    discount_percent_extras <-
      (if (extras_total_full >? 0)%Z then
         ratio <- truediv (inject_Z extras_discount_value) extras_total_full ;;
         Ok (ratio * 100)
       else Ok 0) ;;
    Ok (mkDiscountFigures (Some discount_plan) discount_amount_total
                          discount_percent_total discount_percent_extras)
  else Ok (mkDiscountFigures None 0 0 0).

(** ** Competitor comparison (lines 21-22, 597-665) *)

Definition SERVICE_HALF_YEAR : Z := 594.
Definition SERVICE_MONTHLY : Q := inject_Z SERVICE_HALF_YEAR / 6.

Definition horizons : list (string * Z) :=
  [ ("3 år", 36%Z); ("5 år", 60%Z); ("10 år", 120%Z); ("15 år", 180%Z) ].

(** One pass of the loop over [horizons]: the loop variables, before the
    [round(., 2)] applied to the three costs for display. *)
Record HorizonRow : Type := mkHorizonRow {
  horizon_label : string;
  horizon_months : Z;
  months_full : Z;
  months_service : Z;
  our_total : Q;
  comp_total : Q;
  diff : Q
}.

Definition long_term_comparison (offer_plan_for_calc : Plan)
    (comp_monthly comp_start : Q) : list HorizonRow :=
  let our_monthly := monthly offer_plan_for_calc in
  let our_months := months offer_plan_for_calc in
  map (fun '(label, months) =>
         let months_full := Z.min months our_months in
         let cost_full := our_monthly * inject_Z months_full in
         let months_service := Z.max 0 (months - our_months) in
         let cost_service := SERVICE_MONTHLY * inject_Z months_service in
         let our_total := inject_Z START_FEE + cost_full + cost_service in
         let comp_total := comp_start + comp_monthly * inject_Z months in
         let diff := comp_total - our_total in
         mkHorizonRow label months months_full months_service
                      our_total comp_total diff)
      horizons.

(** [list(range(1, 16))] *)
Definition years_monthly : list Z := map Z.of_nat (seq 1 15).

(** The STL monthly cost charted for each of the years 1 to 15.  [round2]
    stands for [round(., 2)]. *)
Definition stl_monthly_curve (round2 : Q -> Q) (offer_plan_for_calc : Plan)
  : list Q :=
  let our_monthly := monthly offer_plan_for_calc in
  let our_months := months offer_plan_for_calc in
  map (fun year =>
         let months_elapsed := (year * 12)%Z in
         let stl_m :=
           if (months_elapsed <=? our_months)%Z then our_monthly
           else SERVICE_MONTHLY in
         round2 stl_m)
      years_monthly.

(** ** Statements of the specification *)

(** What the specification says of the budget matcher on one plan list. *)
Definition budget_matcher_spec (plans : list Plan) (budget : Q) : Prop :=
  ((exists p, In p plans /\ monthly p <= budget) ->
   exists best,
     choose_best_plan_for_budget plans budget = Ok (best, "within")
     /\ In best plans
     /\ monthly best <= budget
     /\ forall q, In q plans -> monthly q <= budget ->
                  monthly q <= monthly best)
  /\
  (~ (exists p, In p plans /\ monthly p <= budget) ->
   exists best,
     choose_best_plan_for_budget plans budget = Ok (best, "above")
     /\ In best plans
     /\ forall q, In q plans -> monthly best <= monthly q).

(** Membership in the tolerance band around the target. *)
Definition in_band (target tolerance : Q) (p : Plan) : Prop :=
  target - tolerance <= monthly p /\ monthly p <= target + tolerance.

(** What the specification says of the discount matcher on one plan list. *)
Definition discount_matcher_spec (plans : list Plan) (target tolerance : Q)
  : Prop :=
  ((exists p, In p plans /\ in_band target tolerance p) ->
   exists first,
     choose_discount_plan_to_match_price plans target tolerance
     = Ok (first, true)
     /\ In first plans
     /\ in_band target tolerance first
     /\ forall c, In c plans -> in_band target tolerance c ->
                  (months first <= months c)%Z
                  /\ (months c = months first ->
                      distance target first <= distance target c))
  /\
  (~ (exists p, In p plans /\ in_band target tolerance p) ->
   exists nearest,
     choose_discount_plan_to_match_price plans target tolerance
     = Ok (nearest, false)
     /\ In nearest plans
     /\ forall q, In q plans -> distance target nearest <= distance target q).

(** The tiers tested by the conditionals of [bonus_for_net_sales]:
    threshold and bonus. *)
Definition BONUS_TIERS : list (Z * Z) :=
  [ (10, 5000); (15, 10000); (20, 15000);
    (30, 30000); (40, 40000); (50, 50000) ]%Z.

(** One magnet, billed; no camera, no fire alarm; no box ticked. *)
Definition billed_magnet_only : Sidebar :=
  mkSidebar false 1 0 0 false false false "12 månader" 800 50 0 0.

(** * Properties *)

Unset Implicit Arguments.

(** Proof steps for the bonus tiers. *)
Ltac tier_bound :=
  let t := fresh "t" in
  let b := fresh "b" in
  let Hin := fresh "Hin" in
  intros t b Hin; simpl in Hin;
  repeat (destruct Hin as [Hin | Hin]; [injection Hin as <- <-; lia |]);
  contradiction.

Ltac tier_wins t b :=
  left; exists t, b;
  split; [simpl; tauto | split; [lia | split; [reflexivity | tier_bound]]].

(** ** Comparison on keys *)

Lemma Qltb_lt (a b : Q) : Qltb a b = true <-> a < b.
Proof.
  unfold Qltb. rewrite negb_true_iff, <- not_true_iff_false, Qle_bool_iff.
  split; [apply Qnot_le_lt | apply Qlt_not_le].
Qed.

Lemma Qltb_ge (a b : Q) : Qltb a b = false <-> b <= a.
Proof.
  unfold Qltb. rewrite negb_false_iff. apply Qle_bool_iff.
Qed.

Lemma Qltb_irrefl (a : Q) : Qltb a a = false.
Proof. apply Qltb_ge, Qle_refl. Qed.

Lemma Qltb_trans (a b c : Q) :
  Qltb a b = true -> Qltb b c = true -> Qltb a c = true.
Proof. rewrite !Qltb_lt. apply Qlt_trans. Qed.

Lemma Qltb_negtrans (a b c : Q) :
  Qltb a b = false -> Qltb b c = false -> Qltb a c = false.
Proof. rewrite !Qltb_ge. intros H1 H2. exact (Qle_trans _ _ _ H2 H1). Qed.

Lemma tuple_ltb_lex (a b : Z * Q) :
  tuple_ltb a b = true <->
  (fst a < fst b)%Z \/ (fst a = fst b /\ snd a < snd b).
Proof.
  unfold tuple_ltb. destruct (Z.eqb_spec (fst a) (fst b)) as [E | E].
  - rewrite Qltb_lt. split; [auto | intros [H | [_ H]]; [lia | exact H]].
  - rewrite Z.ltb_lt. split; [auto | intros [H | [H _]]; [exact H | contradiction]].
Qed.

Lemma tuple_ltb_ge (a b : Z * Q) :
  tuple_ltb a b = false <->
  (fst b < fst a)%Z \/ (fst a = fst b /\ snd b <= snd a).
Proof.
  unfold tuple_ltb. destruct (Z.eqb_spec (fst a) (fst b)) as [E | E].
  - rewrite Qltb_ge. split; [auto | intros [H | [_ H]]; [lia | exact H]].
  - rewrite Z.ltb_ge. split; [intro; left; lia | intros [H | [H _]]; [lia | contradiction]].
Qed.

Lemma tuple_ltb_irrefl (a : Z * Q) : tuple_ltb a a = false.
Proof. apply tuple_ltb_ge. right. split; [reflexivity | apply Qle_refl]. Qed.

Lemma tuple_ltb_trans (a b c : Z * Q) :
  tuple_ltb a b = true -> tuple_ltb b c = true -> tuple_ltb a c = true.
Proof.
  rewrite !tuple_ltb_lex.
  intros [H1 | [E1 H1]] [H2 | [E2 H2]]; try (left; lia).
  right. split; [congruence | exact (Qlt_trans _ _ _ H1 H2)].
Qed.

Lemma tuple_ltb_negtrans (a b c : Z * Q) :
  tuple_ltb a b = false -> tuple_ltb b c = false -> tuple_ltb a c = false.
Proof.
  rewrite !tuple_ltb_ge.
  intros [H1 | [E1 H1]] [H2 | [E2 H2]]; try (left; lia).
  right. split; [congruence | exact (Qle_trans _ _ _ H2 H1)].
Qed.

(** ** [min], [max] and the head of a sorted list *)

Section KeyedFacts.

Variables (A K : Type) (ltb : K -> K -> bool) (key : A -> K).
Hypothesis ltb_irrefl : forall a, ltb a a = false.
Hypothesis ltb_trans :
  forall a b c, ltb a b = true -> ltb b c = true -> ltb a c = true.
Hypothesis ltb_negtrans :
  forall a b c, ltb a b = false -> ltb b c = false -> ltb a c = false.

Lemma min_scan_In (l : list A) :
  forall best, In (min_scan ltb key best l) (best :: l).
Proof.
  induction l as [| x rest IH]; intro best; simpl; [now left |].
  destruct (ltb (key x) (key best)).
  - right. apply IH.
  - destruct (IH best) as [H | H]; [now left | now right; right].
Qed.

Lemma min_scan_least (l : list A) :
  forall best c, In c (best :: l) ->
                 ltb (key c) (key (min_scan ltb key best l)) = false.
Proof.
  induction l as [| x rest IH]; intros best c Hc.
  - destruct Hc as [<- | []]. apply ltb_irrefl.
  - simpl. destruct (ltb (key x) (key best)) eqn:E.
    + destruct Hc as [<- | Hc]; [| now apply IH].
      destruct (ltb (key best) (key (min_scan ltb key x rest))) eqn:F;
        [| reflexivity].
      rewrite <- (IH x x (or_introl eq_refl)). symmetry.
      exact (ltb_trans _ _ _ E F).
    + destruct Hc as [<- | [<- | Hc]].
      * apply IH. now left.
      * apply ltb_negtrans with (b := key best); [exact E |].
        apply IH. now left.
      * apply IH. now right.
Qed.

Lemma max_scan_In (l : list A) :
  forall best, In (max_scan ltb key best l) (best :: l).
Proof.
  induction l as [| x rest IH]; intro best; simpl; [now left |].
  destruct (ltb (key best) (key x)).
  - right. apply IH.
  - destruct (IH best) as [H | H]; [now left | now right; right].
Qed.

Lemma max_scan_greatest (l : list A) :
  forall best c, In c (best :: l) ->
                 ltb (key (max_scan ltb key best l)) (key c) = false.
Proof.
  induction l as [| x rest IH]; intros best c Hc.
  - destruct Hc as [<- | []]. apply ltb_irrefl.
  - simpl. destruct (ltb (key best) (key x)) eqn:E.
    + destruct Hc as [<- | Hc]; [| now apply IH].
      destruct (ltb (key (max_scan ltb key x rest)) (key best)) eqn:F;
        [| reflexivity].
      rewrite <- (IH x x (or_introl eq_refl)). symmetry.
      exact (ltb_trans _ _ _ F E).
    + destruct Hc as [<- | [<- | Hc]].
      * apply IH. now left.
      * apply ltb_negtrans with (b := key best); [| exact E].
        apply IH. now left.
      * apply IH. now right.
Qed.

Lemma sort_by_head (l : list A) :
  l <> [] ->
  exists r rest, sort_by ltb key l = r :: rest /\ In r l /\
                 forall c, In c l -> ltb (key c) (key r) = false.
Proof.
  induction l as [| x l' IH]; [congruence | intros _].
  destruct l' as [| y l''].
  - exists x, []. repeat split; [now left |].
    intros c [<- | []]. apply ltb_irrefl.
  - destruct IH as (r' & rest' & Es & Hin & Hmin); [discriminate |].
    change (sort_by ltb key (x :: y :: l''))
      with (insert_by ltb key x (sort_by ltb key (y :: l''))).
    rewrite Es. simpl.
    destruct (ltb (key r') (key x)) eqn:E.
    + exists r', (insert_by ltb key x rest'). repeat split; [now right |].
      intros c [<- | Hc]; [| now apply Hmin].
      destruct (ltb (key x) (key r')) eqn:F; [| reflexivity].
      rewrite <- (ltb_irrefl (key x)). symmetry.
      exact (ltb_trans _ _ _ F E).
    + exists x, (r' :: rest'). repeat split; [now left |].
      intros c [<- | Hc]; [apply ltb_irrefl |].
      apply ltb_negtrans with (b := key r'); [now apply Hmin | exact E].
Qed.

End KeyedFacts.

(** ** The plan generator *)

Lemma truediv_Ok (a : Q) (b : Z) :
  b <> 0%Z -> truediv a b = Ok (a / inject_Z b).
Proof.
  intro H. unfold truediv. now destruct (Z.eqb_spec b 0).
Qed.

Lemma compute_plans_over_total (options : list (string * Z)) (fa : Q) :
  Forall (fun o => snd o <> 0%Z) options ->
  exists plans, compute_plans_over options fa = Ok plans.
Proof.
  induction 1 as [| [l m] rest Hm _ [plans IH]]; simpl.
  - now exists [].
  - rewrite (truediv_Ok _ _ Hm). simpl. rewrite IH. simpl. eauto.
Qed.

(** A zero term anywhere in the option list makes the generator raise. *)
Lemma compute_plans_over_zero (options : list (string * Z)) (fa : Q) :
  Exists (fun o => snd o = 0%Z) options ->
  compute_plans_over options fa = Raise ZeroDivisionError.
Proof.
  induction 1 as [[l m] rest Hm | [l m] rest _ IH]; simpl in *.
  - subst m. reflexivity.
  - unfold truediv. destruct (m =? 0)%Z; [reflexivity |].
    simpl. now rewrite IH.
Qed.

Lemma compute_plans_over_shape (options : list (string * Z)) (fa : Q) :
  forall plans,
    compute_plans_over options fa = Ok plans ->
    map (fun p => (label p, months p)) plans = options.
Proof.
  induction options as [| [l m] rest IH]; simpl; intros plans H.
  - now injection H as <-.
  - unfold truediv in H. destruct (m =? 0)%Z; [discriminate |]. simpl in H.
    destruct (compute_plans_over rest fa) as [ps |]; [| discriminate].
    injection H as <-. simpl. now rewrite (IH ps).
Qed.

Lemma compute_plans_over_plan (options : list (string * Z)) (fa : Q) :
  forall plans,
    compute_plans_over options fa = Ok plans ->
    Forall (fun p =>
              months p <> 0%Z
              /\ monthly p = fa / inject_Z (months p) + inject_Z ADMIN_MONTHLY
              /\ total p = monthly p * inject_Z (months p) + inject_Z START_FEE)
           plans.
Proof.
  induction options as [| [l m] rest IH]; simpl; intros plans H.
  - injection H as <-. constructor.
  - unfold truediv in H. destruct (Z.eqb_spec m 0); [discriminate |].
    simpl in H.
    destruct (compute_plans_over rest fa) as [ps |]; [| discriminate].
    injection H as <-. constructor; [now repeat split | now apply IH].
Qed.

Lemma PAYMENT_OPTIONS_positive :
  Forall (fun o => (0 < snd o)%Z) PAYMENT_OPTIONS.
Proof. repeat constructor. Qed.

Lemma compute_plans_total (fa : Q) :
  exists plans, compute_plans fa = Ok plans /\ plans <> [].
Proof.
  destruct (compute_plans_over_total PAYMENT_OPTIONS fa) as [plans H].
  - eapply Forall_impl; [| exact PAYMENT_OPTIONS_positive].
    simpl. intros o Ho. lia.
  - exists plans. split; [exact H |].
    apply compute_plans_over_shape in H. now destruct plans.
Qed.

Lemma compute_plans_months_positive (fa : Q) (plans : list Plan) (p : Plan) :
  compute_plans fa = Ok plans -> In p plans -> (0 < months p)%Z.
Proof.
  intros H Hp. apply compute_plans_over_shape in H.
  assert (Hin : In (label p, months p) PAYMENT_OPTIONS).
  { rewrite <- H. now apply (in_map (fun p => (label p, months p))). }
  exact (proj1 (Forall_forall _ _) PAYMENT_OPTIONS_positive _ Hin).
Qed.

Lemma inject_Z_pos (a : Z) : (0 < a)%Z -> 0 < inject_Z a.
Proof. intro H. unfold Qlt. simpl. lia. Qed.

(** Dividing a non-negative amount over a longer term gives no more. *)
Lemma Qdiv_term_le (x : Q) (a b : Z) :
  0 <= x -> (0 < a)%Z -> (a <= b)%Z -> x / inject_Z b <= x / inject_Z a.
Proof.
  intros Hx Ha Hab.
  destruct (Z.eq_dec a b) as [-> | Hne]; [apply Qle_refl |].
  unfold Qdiv.
  rewrite (Qmult_comm x (/ inject_Z b)), (Qmult_comm x (/ inject_Z a)).
  apply Qmult_le_compat_r; [| exact Hx].
  apply Qlt_le_weak.
  apply (proj1 (@Qinv_lt_contravar (inject_Z a) (inject_Z b)
                  (inject_Z_pos _ Ha) (inject_Z_pos _ (Z.lt_le_trans _ _ _ Ha Hab)))).
  rewrite <- Zlt_Qlt. lia.
Qed.

Lemma compute_plans_monthly (fa : Q) (plans : list Plan) (p : Plan) :
  compute_plans fa = Ok plans -> In p plans ->
  monthly p = fa / inject_Z (months p) + inject_Z ADMIN_MONTHLY.
Proof.
  intros H Hp. apply compute_plans_over_plan in H.
  exact (proj1 (proj2 (proj1 (Forall_forall _ _) H p Hp))).
Qed.

Lemma StronglySorted_nth_error (A : Type) (R : A -> A -> Prop) (l : list A) :
  StronglySorted R l ->
  forall i j a b, (i < j)%nat ->
                  nth_error l i = Some a -> nth_error l j = Some b -> R a b.
Proof.
  induction 1 as [| x l Hs IH Hall]; intros i j a b Hij Hi Hj.
  - destruct i; discriminate Hi.
  - destruct j as [| j]; [lia |]. destruct i as [| i]; simpl in Hi, Hj.
    + injection Hi as <-.
      apply (proj1 (Forall_forall _ _) Hall). now apply nth_error_In with j.
    + apply (IH i j); [lia | exact Hi | exact Hj].
Qed.

(** Terms grow strictly along the option list. *)
Lemma PAYMENT_OPTIONS_increasing :
  StronglySorted Z.lt (map snd PAYMENT_OPTIONS).
Proof. simpl. repeat constructor. Qed.

Lemma compute_plans_position (fa : Q) (plans : list Plan) (i : nat) (p : Plan) :
  compute_plans fa = Ok plans -> nth_error plans i = Some p ->
  nth_error PAYMENT_OPTIONS i = Some (label p, months p).
Proof.
  intros H Hi. apply compute_plans_over_shape in H. rewrite <- H.
  now apply (map_nth_error (fun p => (label p, months p))).
Qed.

Lemma compute_plans_months_increasing (fa : Q) (plans : list Plan)
    (i j : nat) (p q : Plan) :
  compute_plans fa = Ok plans -> (i < j)%nat ->
  nth_error plans i = Some p -> nth_error plans j = Some q ->
  (months p < months q)%Z.
Proof.
  intros H Hij Hi Hj.
  apply (StronglySorted_nth_error _ _ _ PAYMENT_OPTIONS_increasing i j _ _ Hij).
  - change (months p) with (snd (label p, months p)).
    apply map_nth_error. now apply compute_plans_position with fa plans.
  - change (months q) with (snd (label q, months q)).
    apply map_nth_error. now apply compute_plans_position with fa plans.
Qed.

Lemma monthly_antitone (fa : Q) (plans : list Plan) (p q : Plan) :
  compute_plans fa = Ok plans -> In p plans -> In q plans ->
  0 <= fa -> (months p <= months q)%Z -> monthly q <= monthly p.
Proof.
  intros H Hp Hq Hfa Hm.
  rewrite (compute_plans_monthly _ _ _ H Hp), (compute_plans_monthly _ _ _ H Hq).
  apply Qplus_le_compat; [| apply Qle_refl].
  apply Qdiv_term_le; [exact Hfa | | exact Hm].
  now apply compute_plans_months_positive with fa plans.
Qed.

(** ** The matchers *)

Lemma insert_by_not_nil (A K : Type) (ltb : K -> K -> bool) (key : A -> K)
    (x : A) (l : list A) :
  insert_by ltb key x l <> [].
Proof. destruct l as [| y rest]; simpl; [| destruct (ltb _ _)]; discriminate. Qed.

Lemma under_or_equal_In (plans : list Plan) (budget : Q) (p : Plan) :
  In p (filter (fun p => Qle_bool (monthly p) budget) plans) <->
  In p plans /\ monthly p <= budget.
Proof. rewrite filter_In, Qle_bool_iff. reflexivity. Qed.

Lemma candidates_In (plans : list Plan) (target tolerance : Q) (p : Plan) :
  In p (filter (fun p => Qle_bool (target - tolerance) (monthly p)
                         && Qle_bool (monthly p) (target + tolerance)) plans)
  <-> In p plans /\ in_band target tolerance p.
Proof.
  rewrite filter_In, andb_true_iff, !Qle_bool_iff. reflexivity.
Qed.

Lemma choose_best_plan_for_budget_total (plans : list Plan) (budget : Q) :
  plans <> [] -> exists r, choose_best_plan_for_budget plans budget = Ok r.
Proof.
  intro Hne. unfold choose_best_plan_for_budget.
  destruct (filter _ plans) as [| u us]; simpl; [| eauto].
  destruct plans as [| x rest]; [congruence | simpl; eauto].
Qed.

Lemma choose_discount_plan_to_match_price_total
    (plans : list Plan) (target tolerance : Q) :
  plans <> [] ->
  exists r, choose_discount_plan_to_match_price plans target tolerance = Ok r.
Proof.
  intro Hne. unfold choose_discount_plan_to_match_price.
  destruct (filter _ plans) as [| c0 cs].
  - destruct plans as [| x rest]; [congruence | simpl; eauto].
  - simpl sort_by.
    destruct (insert_by tuple_ltb _ c0 _) as [| r rest] eqn:E; [| simpl; eauto].
    now apply insert_by_not_nil in E.
Qed.

(** * The claims *)

(** C5.  For every financed amount >= 0 the generator returns a plan list,
    and every plan in it has monthly = financed amount / term + 49 and
    total = monthly * term + 594. *)
Theorem compute_plans_invariants (financed_amount : Q) :
  0 <= financed_amount ->
  exists plans,
    compute_plans financed_amount = Ok plans
    /\ Forall (fun p =>
                 monthly p == financed_amount / inject_Z (months p) + 49
                 /\ total p == monthly p * inject_Z (months p) + 594)
              plans.
Proof.
  intros _. destruct (compute_plans_total financed_amount) as [plans [E _]].
  exists plans. split; [exact E |].
  apply compute_plans_over_plan in E.
  eapply Forall_impl; [| exact E].
  intros p (_ & Hm & Ht). split.
  - rewrite Hm. reflexivity.
  - rewrite Ht. reflexivity.
Qed.

Lemma compute_plans_invariants_witness :
  0 <= 36990
  /\ exists plans,
       compute_plans 36990 = Ok plans
       /\ Forall (fun p =>
                    monthly p == 36990 / inject_Z (months p) + 49
                    /\ total p == monthly p * inject_Z (months p) + 594)
                 plans.
Proof.
  assert (H : 0 <= 36990) by (unfold Qle; simpl; lia).
  split; [exact H | exact (compute_plans_invariants 36990 H)].
Defined.

(** C7.  Financed amount 36990 over 12 months: monthly = 36990/12 + 49 =
    3131.50 and total = 3131.50 * 12 + 594 = 38172.00, exactly. *)
Theorem plan_36990_over_12_months :
  exists plans p,
    compute_plans 36990 = Ok plans
    /\ find (fun p => (months p =? 12)%Z) plans = Some p
    /\ label p = "12 månader"
    /\ monthly p == 36990 / 12 + 49
    /\ monthly p == 3131.50
    /\ total p == 3131.50 * 12 + 594
    /\ total p == 38172.00.
Proof.
  eexists. eexists. split; [reflexivity |].
  split; [reflexivity |]. repeat split.
Qed.

(** C9.  Every term of the static option list is strictly positive, so the
    generator returns a plan list for every financed amount, and both
    matchers return on that list for every target and tolerance. *)
Theorem plan_engine_total :
  Forall (fun o => (0 < snd o)%Z) PAYMENT_OPTIONS
  /\ forall financed_amount : Q,
       exists plans,
         compute_plans financed_amount = Ok plans
         /\ (forall budget,
                exists r, choose_best_plan_for_budget plans budget = Ok r)
         /\ (forall target tolerance,
                exists r,
                  choose_discount_plan_to_match_price plans target tolerance
                  = Ok r).
Proof.
  split; [exact PAYMENT_OPTIONS_positive |].
  intro fa. destruct (compute_plans_total fa) as [plans [E Hne]].
  exists plans. split; [exact E |]. split.
  - intro budget. now apply choose_best_plan_for_budget_total.
  - intros target tolerance.
    now apply choose_discount_plan_to_match_price_total.
Qed.

(** C2 as stated fails on the empty plan list: no plan is within any budget,
    and [min] of the empty list raises instead of returning a plan. *)
Lemma budget_matcher_empty_list_raises :
  choose_best_plan_for_budget [] 0 = Raise ValueError
  /\ ~ budget_matcher_spec [] 0.
Proof.
  split; [reflexivity |].
  intros [_ H]. destruct H as (best & _ & [] & _).
  intros (p & [] & _).
Qed.

(** C2, amended.  For every non-empty plan list and every budget: if some
    plan's monthly is <= the budget, the matcher returns, with status
    "within", a plan of the list whose monthly is <= the budget and is the
    greatest such; otherwise it returns, with status "above", a plan of the
    list with the lowest monthly of all. *)
Theorem choose_best_plan_for_budget_spec (plans : list Plan) (budget : Q) :
  plans <> [] -> budget_matcher_spec plans budget.
Proof.
  intro Hne. unfold budget_matcher_spec, choose_best_plan_for_budget.
  remember (filter (fun p => Qle_bool (monthly p) budget) plans)
    as under eqn:E.
  assert (Hu : forall p, In p under <-> In p plans /\ monthly p <= budget).
  { intro p. rewrite E. apply under_or_equal_In. }
  clear E. split.
  - intros [p Hp]. apply Hu in Hp.
    destruct under as [| u us]; [contradiction |]. simpl.
    exists (max_scan Qltb monthly u us). split; [reflexivity |].
    destruct (proj1 (Hu _) (max_scan_In _ _ Qltb monthly us u)) as [Hin Hle].
    repeat split; [exact Hin | exact Hle |].
    intros q Hq Hqle. apply Qltb_ge.
    apply max_scan_greatest;
      [exact Qltb_irrefl | exact Qltb_trans | exact Qltb_negtrans |].
    apply Hu. now split.
  - intro Hnone. destruct under as [| u us].
    + destruct plans as [| x rest]; [congruence |]. simpl.
      exists (min_scan Qltb monthly x rest). split; [reflexivity |].
      split; [apply min_scan_In |].
      intros q Hq. apply Qltb_ge.
      apply min_scan_least;
        [exact Qltb_irrefl | exact Qltb_trans | exact Qltb_negtrans | exact Hq].
    + exfalso. apply Hnone. exists u. apply Hu. now left.
Qed.

Lemma choose_best_plan_for_budget_spec_witness :
  [mkPlan "12 månader" 12 3131.5 38172; mkPlan "24 månader" 24 1590.25 38760]
  <> []
  /\ budget_matcher_spec
       [mkPlan "12 månader" 12 3131.5 38172;
        mkPlan "24 månader" 24 1590.25 38760] 2000.
Proof.
  assert (H : [mkPlan "12 månader" 12 3131.5 38172;
               mkPlan "24 månader" 24 1590.25 38760] <> [])
    by discriminate.
  split; [exact H | exact (choose_best_plan_for_budget_spec _ 2000 H)].
Defined.

(** C6.  The bonus is that of the highest tier whose threshold the
    net-sales count reaches (thresholds inclusive, one tier only), and 0
    below the first threshold: 9 gives 0, 10 gives 5000, 49 gives 40000 and
    50 gives 50000. *)
Theorem bonus_for_net_sales_tiers :
  bonus_for_net_sales 9 = 0%Z
  /\ bonus_for_net_sales 10 = 5000%Z
  /\ bonus_for_net_sales 49 = 40000%Z
  /\ bonus_for_net_sales 50 = 50000%Z
  /\ forall net_sales : Z,
       (exists threshold bonus,
           In (threshold, bonus) BONUS_TIERS
           /\ (threshold <= net_sales)%Z
           /\ bonus_for_net_sales net_sales = bonus
           /\ forall t b, In (t, b) BONUS_TIERS ->
                          (t <= net_sales -> t <= threshold)%Z)
       \/ (bonus_for_net_sales net_sales = 0%Z
           /\ forall t b, In (t, b) BONUS_TIERS -> (net_sales < t)%Z).
Proof.
  do 4 (split; [reflexivity |]).
  intro n. unfold bonus_for_net_sales. rewrite !Z.geb_leb.
  destruct (Z.leb_spec 50 n); [tier_wins 50%Z 50000%Z |].
  destruct (Z.leb_spec 40 n); [tier_wins 40%Z 40000%Z |].
  destruct (Z.leb_spec 30 n); [tier_wins 30%Z 30000%Z |].
  destruct (Z.leb_spec 20 n); [tier_wins 20%Z 15000%Z |].
  destruct (Z.leb_spec 15 n); [tier_wins 15%Z 10000%Z |].
  destruct (Z.leb_spec 10 n); [tier_wins 10%Z 5000%Z |].
  right. split; [reflexivity | tier_bound].
Qed.

(** C8.  With non-negative counts, whatever the charged flags, the financed
    amount of the discount offer is at most that of the standard offer. *)
Theorem financed_discount_le_financed_full
    (base_price magnet_count camera_count fire_count : Z)
    (charged_magnet charged_camera charged_fire : bool) :
  (0 <= magnet_count)%Z -> (0 <= camera_count)%Z -> (0 <= fire_count)%Z ->
  (financed_discount base_price magnet_count camera_count fire_count
                     charged_magnet charged_camera charged_fire
   <= financed_full base_price magnet_count camera_count fire_count)%Z.
Proof.
  intros Hm Hc Hf.
  unfold financed_discount, financed_full, extras_charged, extras_total_full,
    EXTRA_MAGNET, EXTRA_CAMERA, EXTRA_FIRE.
  destruct charged_magnet, charged_camera, charged_fire; lia.
Qed.

Lemma financed_discount_le_financed_full_witness :
  (0 <= 2)%Z /\ (0 <= 1)%Z /\ (0 <= 3)%Z
  /\ (financed_discount BASE_UNDER_70 2 1 3 true false false
      <= financed_full BASE_UNDER_70 2 1 3)%Z.
Proof.
  assert (H2 : (0 <= 2)%Z) by lia.
  assert (H1 : (0 <= 1)%Z) by lia.
  assert (H3 : (0 <= 3)%Z) by lia.
  split; [exact H2 |]. split; [exact H1 |]. split; [exact H3 |].
  exact (financed_discount_le_financed_full
           BASE_UNDER_70 2 1 3 true false false H2 H1 H3).
Defined.

(** ** Commission *)

Lemma truthy_true (n : Z) : truthy n = true <-> n <> 0%Z.
Proof.
  unfold truthy. rewrite negb_true_iff. destruct (Z.eqb_spec n 0); split;
    congruence.
Qed.

(** The penalty condition of the commission block: a selected extra is not
    charged, or a discount plan was produced. *)
Lemma has_comp_iff (magnet_count camera_count fire_count : Z)
    (charged_magnet charged_camera charged_fire : bool)
    (discount_plan : option Plan) (miles_driven : Q) :
  has_comp (commission magnet_count camera_count fire_count
                       charged_magnet charged_camera charged_fire
                       discount_plan miles_driven) = true
  <-> (magnet_count <> 0%Z /\ charged_magnet = false)
      \/ (camera_count <> 0%Z /\ charged_camera = false)
      \/ (fire_count <> 0%Z /\ charged_fire = false)
      \/ discount_plan <> None.
Proof.
  simpl. rewrite !orb_true_iff, !andb_true_iff, !truthy_true, !negb_true_iff.
  destruct discount_plan as [p |]; intuition congruence.
Qed.

(** ** The script *)

Lemma run_inversion (s : Sidebar) (o : Outcome) :
  run s = Ok o ->
  deal_commission o
  = commission (magnet_count s) (camera_count s) (fire_count s)
               (charged_magnet s) (charged_camera s) (charged_fire s)
               (discount_plan o) (miles_driven s)
  /\ (discount_branch s = true <-> discount_plan o <> None)
  /\ monthly_bonus o = bonus_for_net_sales (net_sales_month s).
Proof.
  unfold run.
  destruct (compute_plans _) as [pf |]; [cbn [bind] | discriminate].
  destruct (py_next _) as [sel |]; [cbn [bind] | discriminate].
  destruct (choose_best_plan_for_budget pf _) as [[best status] |];
    [cbn [bind] | discriminate].
  destruct (discount_branch s).
  - destruct (compute_plans _) as [pd |]; [cbn [bind] | discriminate].
    destruct (choose_discount_plan_to_match_price pd _ _) as [[dp within] |];
      [cbn [bind] | discriminate].
    intros [= <-]. cbn [deal_commission discount_plan monthly_bonus].
    repeat split; congruence.
  - cbn [bind]. intros [= <-].
    cbn [deal_commission discount_plan monthly_bonus].
    repeat split; congruence.
Qed.

(** The script runs to its end whenever the select box returns one of the
    labels it offers. *)
Lemma run_total (s : Sidebar) :
  In (selected_term_label s) term_labels -> exists o, run s = Ok o.
Proof.
  intro Hsel. unfold run.
  destruct (compute_plans_total
              (inject_Z (financed_full (base_price s) (magnet_count s)
                                       (camera_count s) (fire_count s))))
    as [pf [Ef Hpf]].
  rewrite Ef. cbn [bind].
  assert (Hlab : map label pf = term_labels).
  { unfold term_labels. rewrite <- (compute_plans_over_shape _ _ _ Ef).
    rewrite map_map. reflexivity. }
  rewrite <- Hlab in Hsel. apply in_map_iff in Hsel as [p [Hl Hp]].
  assert (Hf : In p (filter (fun p => String.eqb (label p)
                                                 (selected_term_label s)) pf)).
  { apply filter_In. split; [exact Hp |]. now apply String.eqb_eq. }
  destruct (filter _ pf) as [| sel rest]; [contradiction |].
  cbn [py_next bind].
  destruct (choose_best_plan_for_budget_total pf (desired_monthly s) Hpf)
    as [[best status] Eb].
  rewrite Eb. cbn [bind].
  destruct (discount_branch s); [| cbn [bind]; eauto].
  destruct (compute_plans_total
              (inject_Z (financed_discount (base_price s) (magnet_count s)
                                           (camera_count s) (fire_count s)
                                           (charged_magnet s)
                                           (charged_camera s)
                                           (charged_fire s))))
    as [pd [Ed Hpd]].
  rewrite Ed. cbn [bind].
  destruct (choose_discount_plan_to_match_price_total
              pd (desired_monthly s) (inject_Z (tolerance s)) Hpd)
    as [[dp within] Edp].
  rewrite Edp. cbn [bind]. eauto.
Qed.

(** In a run the penalty is applied exactly when the discount branch was
    taken: a comped extra always takes it. *)
Lemma run_has_comp_iff_discount_branch (s : Sidebar) (o : Outcome) :
  run s = Ok o ->
  (has_comp (deal_commission o) = true <-> discount_branch s = true).
Proof.
  intro H. destruct (run_inversion s o H) as (Hc & Hd & _).
  rewrite Hc, has_comp_iff. split.
  - intros [[Hn Hf] | [[Hn Hf] | [[Hn Hf] | Hp]]];
      [| | | apply Hd; exact Hp];
      unfold discount_branch; apply truthy_true in Hn; rewrite Hn, Hf;
      destruct (truthy (magnet_count s)), (truthy (camera_count s)),
        (truthy (fire_count s)), (charged_magnet s), (charged_camera s),
        (charged_fire s); reflexivity.
  - intro Hb. right; right; right. apply Hd. exact Hb.
Qed.

(** With no box ticked the discount branch is still taken as soon as one
    extra is selected and another is not: an extra with count 0 is "not
    charged". *)
Lemma discount_branch_without_comp (s : Sidebar) :
  (0 <= magnet_count s)%Z -> (0 <= camera_count s)%Z ->
  (0 <= fire_count s)%Z ->
  bjud_magnet s = false -> bjud_camera s = false -> bjud_fire s = false ->
  (discount_branch s = true
   <-> (magnet_count s <> 0 \/ camera_count s <> 0 \/ fire_count s <> 0)%Z
       /\ (magnet_count s = 0 \/ camera_count s = 0 \/ fire_count s = 0)%Z).
Proof.
  intros Hm Hc Hf Bm Bc Bf.
  unfold discount_branch, charged_magnet, charged_camera, charged_fire.
  rewrite Bm, Bc, Bf. simpl. rewrite !andb_true_r.
  rewrite andb_true_iff, !orb_true_iff, !truthy_true, !negb_true_iff.
  rewrite !Z.gtb_ltb, !Z.ltb_ge. lia.
Qed.

(** C1 fails on the code.  With one billed magnet and no other extra, no
    extra is comped, yet the discount branch is taken, a discount plan is
    produced and the commission 2500 + 0.10 * 1000 + 0.20 * 5000 = 3600 is
    cut by 20% to 2880. *)
Theorem penalty_without_comped_extra :
  exists o,
    run billed_magnet_only = Ok o
    /\ charged_magnet billed_magnet_only = true
    /\ camera_count billed_magnet_only = 0%Z
    /\ fire_count billed_magnet_only = 0%Z
    /\ discount_branch billed_magnet_only = true
    /\ (exists p, discount_plan o = Some p)
    /\ has_comp (deal_commission o) = true
    /\ total_before_comp (deal_commission o) == 2500 + 0.10 * 1000 + 0.20 * 5000
    /\ total_before_comp (deal_commission o) == 3600
    /\ total_after_comp (deal_commission o) == 2880.
Proof.
  eexists. split; [vm_compute; reflexivity |].
  do 4 (split; [reflexivity |]).
  split; [eexists; reflexivity |].
  split; [reflexivity |].
  repeat split.
Qed.

(** ** Binary64 *)

(** The example of C7 involves no rounding: binary64 arithmetic gives the
    same monthly payment and total. *)
Lemma binary64_plan_36990_over_12_months :
  exists p,
    find (fun p => (Binary64.fmonths p =? 12)%Z)
         (Binary64.compute_plans 36990)
    = Some p
    /\ Binary64.fmonthly p = 3131.5%float
    /\ Binary64.ftotal p = 38172%float.
Proof. eexists. split; [vm_compute; reflexivity |]. split; reflexivity. Qed.

(** Rounding is outside the rational model.  In binary64 a positive amount
    far below the precision of 49 is absorbed by the admin fee, and all
    monthly payments coincide. *)
Lemma binary64_small_amount_absorbed :
  Forall (fun p => Binary64.fmonthly p = 49%float)
         (Binary64.compute_plans 0x1p-1000).
Proof. vm_compute. repeat constructor. Qed.

(** * Further properties of the code *)

(** ** Which of several extremal items is returned *)

Section KeyedOrder.

Variables (A K : Type) (ltb : K -> K -> bool) (key : A -> K).
Hypothesis ltb_irrefl : forall a, ltb a a = false.
Hypothesis ltb_trans :
  forall a b c, ltb a b = true -> ltb b c = true -> ltb a c = true.
Hypothesis ltb_negtrans :
  forall a b c, ltb a b = false -> ltb b c = false -> ltb a c = false.

Lemma ltb_below (a b c : K) :
  ltb a c = true -> ltb b c = false -> ltb a b = true.
Proof.
  intros Hac Hbc. destruct (ltb a b) eqn:E; [reflexivity |].
  rewrite (ltb_negtrans _ _ _ E Hbc) in Hac. discriminate.
Qed.

Lemma ltb_above (a b c : K) :
  ltb a b = false -> ltb a c = true -> ltb b c = true.
Proof.
  intros Hab Hac. destruct (ltb b c) eqn:E; [reflexivity |].
  rewrite (ltb_negtrans _ _ _ Hab E) in Hac. discriminate.
Qed.

(** [max] returns the first maximal item: everything before it is strictly
    smaller. *)
Lemma max_scan_first (l : list A) :
  forall best,
  exists l1 l2,
    best :: l = (l1 ++ max_scan ltb key best l :: l2)%list
    /\ Forall (fun x => ltb (key x) (key (max_scan ltb key best l)) = true) l1.
Proof.
  induction l as [| x rest IH]; intro best; simpl.
  - exists [], []. split; [reflexivity | constructor].
  - destruct (ltb (key best) (key x)) eqn:E.
    + destruct (IH x) as (l1 & l2 & Hl & Hall).
      exists (best :: l1), l2. split; [simpl; f_equal; exact Hl |].
      constructor; [| exact Hall].
      apply ltb_below with (c := key x); [exact E |].
      apply max_scan_greatest; auto. now left.
    + destruct (IH best) as (l1 & l2 & Hl & Hall).
      destruct l1 as [| b l1'].
      * simpl in Hl. injection Hl as Hb Hr.
        exists [], (x :: l2). split; [simpl; congruence | constructor].
      * simpl in Hl. injection Hl as Hb Hr. subst b.
        exists (best :: x :: l1'), l2. split; [simpl; do 2 f_equal; exact Hr |].
        inversion Hall as [| ? ? Hbest Hall']; subst.
        constructor; [exact Hbest |]. constructor; [| exact Hall'].
        apply ltb_above with (a := key best); [exact E | exact Hbest].
Qed.

(** [min] returns the first minimal item: everything before it is strictly
    greater. *)
Lemma min_scan_first (l : list A) :
  forall best,
  exists l1 l2,
    best :: l = (l1 ++ min_scan ltb key best l :: l2)%list
    /\ Forall (fun x => ltb (key (min_scan ltb key best l)) (key x) = true) l1.
Proof.
  induction l as [| x rest IH]; intro best; simpl.
  - exists [], []. split; [reflexivity | constructor].
  - destruct (ltb (key x) (key best)) eqn:E.
    + destruct (IH x) as (l1 & l2 & Hl & Hall).
      exists (best :: l1), l2. split; [simpl; f_equal; exact Hl |].
      constructor; [| exact Hall].
      apply ltb_above with (a := key x); [| exact E].
      apply min_scan_least; auto. now left.
    + destruct (IH best) as (l1 & l2 & Hl & Hall).
      destruct l1 as [| b l1'].
      * simpl in Hl. injection Hl as Hb Hr.
        exists [], (x :: l2). split; [simpl; congruence | constructor].
      * simpl in Hl. injection Hl as Hb Hr. subst b.
        exists (best :: x :: l1'), l2. split; [simpl; do 2 f_equal; exact Hr |].
        inversion Hall as [| ? ? Hbest Hall']; subst.
        constructor; [exact Hbest |]. constructor; [| exact Hall'].
        apply ltb_below with (c := key best); [exact Hbest | exact E].
Qed.

(** The head of the sorted list is the first item with the least key:
    everything before it in the unsorted list has a strictly greater key. *)
Lemma sort_by_head_first (l : list A) :
  forall r rest,
    sort_by ltb key l = r :: rest ->
    exists l1 l2,
      l = (l1 ++ r :: l2)%list /\ Forall (fun x => ltb (key r) (key x) = true) l1.
Proof.
  induction l as [| x l' IH]; intros r rest Hs; [discriminate Hs |].
  simpl in Hs. destruct (sort_by ltb key l') as [| r' rest'] eqn:Es.
  - simpl in Hs. injection Hs as <- _.
    exists [], l'. split; [reflexivity | constructor].
  - simpl in Hs. destruct (ltb (key r') (key x)) eqn:E.
    + injection Hs as <- _.
      destruct (IH r' rest' eq_refl) as (l1 & l2 & Hl & Hall).
      exists (x :: l1), l2. split; [simpl; f_equal; exact Hl |].
      constructor; [exact E | exact Hall].
    + injection Hs as <- _.
      exists [], l'. split; [reflexivity | constructor].
Qed.

End KeyedOrder.

Lemma filter_split (A : Type) (f : A -> bool) (l : list A) :
  forall a x b,
    filter f l = (a ++ x :: b)%list ->
    exists l1 l2, l = (l1 ++ x :: l2)%list /\ filter f l1 = a /\ filter f l2 = b.
Proof.
  induction l as [| y l' IH]; intros a x b H; simpl in H.
  - destruct a; discriminate H.
  - destruct (f y) eqn:Fy.
    + destruct a as [| a0 a'].
      * simpl in H. injection H as <- <-.
        exists [], l'. repeat split.
      * simpl in H. injection H as <- H.
        destruct (IH _ _ _ H) as (l1 & l2 & Hl & H1 & H2).
        exists (y :: l1), l2. split; [simpl; f_equal; exact Hl |].
        split; [simpl; now rewrite Fy, H1 | exact H2].
    + destruct (IH _ _ _ H) as (l1 & l2 & Hl & H1 & H2).
      exists (y :: l1), l2. split; [simpl; f_equal; exact Hl |].
      split; [simpl; now rewrite Fy | exact H2].
Qed.

(** ** More on the plan generator *)

(** The generated list: seven plans with the terms of the option list. *)
Lemma compute_plans_seven (fa : Q) (plans : list Plan) :
  compute_plans fa = Ok plans ->
  exists p1 p2 p3 p4 p5 p6 p7,
    plans = [p1; p2; p3; p4; p5; p6; p7]
    /\ months p1 = 3%Z /\ months p2 = 12%Z /\ months p3 = 24%Z
    /\ months p4 = 36%Z /\ months p5 = 60%Z /\ months p6 = 72%Z
    /\ months p7 = 120%Z.
Proof.
  intro E. assert (Hshape := compute_plans_over_shape _ _ _ E).
  destruct plans
    as [| p1 [| p2 [| p3 [| p4 [| p5 [| p6 [| p7 [| p8 rest]]]]]]]];
    try discriminate Hshape.
  injection Hshape as _ H1 _ H2 _ H3 _ H4 _ H5 _ H6 _ H7.
  exists p1, p2, p3, p4, p5, p6, p7. repeat split; assumption.
Qed.

Lemma compute_plans_months_range (fa : Q) (plans : list Plan) (p : Plan) :
  compute_plans fa = Ok plans -> In p plans -> (3 <= months p <= 120)%Z.
Proof.
  intros E Hp.
  destruct (compute_plans_seven _ _ E)
    as (p1 & p2 & p3 & p4 & p5 & p6 & p7 & -> & H).
  simpl in Hp. intuition (subst; lia).
Qed.

(** X3.  A term of 0 anywhere in the option list makes the loop of the
    generator raise ZeroDivisionError, whatever the financed amount. *)
Theorem zero_term_raises (options : list (string * Z)) (financed_amount : Q) :
  Exists (fun o => snd o = 0%Z) options ->
  compute_plans_over options financed_amount = Raise ZeroDivisionError.
Proof. exact (compute_plans_over_zero options financed_amount). Qed.

Lemma zero_term_raises_witness :
  Exists (fun o => snd o = 0%Z) [("12 månader", 12%Z); ("0 månader", 0%Z)]
  /\ compute_plans_over [("12 månader", 12%Z); ("0 månader", 0%Z)] 36990
     = Raise ZeroDivisionError.
Proof.
  assert (H : Exists (fun o : string * Z => snd o = 0%Z)
                     [("12 månader", 12%Z); ("0 månader", 0%Z)])
    by (right; left; reflexivity).
  split; [exact H | exact (zero_term_raises _ 36990 H)].
Defined.

(** ** More on the budget matcher *)

Lemma budget_matcher_inversion
    (plans : list Plan) (budget : Q) (best : Plan) (status : string) :
  choose_best_plan_for_budget plans budget = Ok (best, status) ->
  (exists u us,
      filter (fun p => Qle_bool (monthly p) budget) plans = u :: us
      /\ best = max_scan Qltb monthly u us /\ status = "within")
  \/ (exists x rest,
         filter (fun p => Qle_bool (monthly p) budget) plans = []
         /\ plans = x :: rest
         /\ best = min_scan Qltb monthly x rest /\ status = "above").
Proof.
  unfold choose_best_plan_for_budget.
  destruct (filter _ plans) as [| u us] eqn:E.
  - destruct plans as [| x rest]; [discriminate |]. simpl.
    intros [= <- <-]. right. exists x, rest. repeat split.
  - simpl. intros [= <- <-]. left. exists u, us. repeat split.
Qed.

(** X4.  Whenever the budget matcher returns, the plan is one of the list
    and the status says whether it fits: "within" with monthly <= budget,
    or "above" with monthly > budget. *)
Theorem budget_status_tells_fit
    (plans : list Plan) (budget : Q) (best : Plan) (status : string) :
  choose_best_plan_for_budget plans budget = Ok (best, status) ->
  In best plans
  /\ ((status = "within" /\ monthly best <= budget)
      \/ (status = "above" /\ budget < monthly best)).
Proof.
  intro H. apply budget_matcher_inversion in H.
  destruct H as [(u & us & E & -> & ->) | (x & rest & E & -> & -> & ->)].
  - assert (Hin := max_scan_In _ _ Qltb monthly us u).
    rewrite <- E in Hin. apply under_or_equal_In in Hin.
    split; [apply Hin |]. left. split; [reflexivity | apply Hin].
  - assert (Hin := min_scan_In _ _ Qltb monthly rest x).
    split; [exact Hin |]. right. split; [reflexivity |].
    apply Qnot_le_lt. intro Hle.
    assert (Hf : In (min_scan Qltb monthly x rest)
                    (filter (fun p => Qle_bool (monthly p) budget)
                            (x :: rest)))
      by (apply under_or_equal_In; now split).
    rewrite E in Hf. exact Hf.
Qed.

Lemma budget_status_tells_fit_witness :
  choose_best_plan_for_budget
    [mkPlan "12 månader" 12 3131.5 38172; mkPlan "24 månader" 24 1590.25 38760]
    2000
  = Ok (mkPlan "24 månader" 24 1590.25 38760, "within")
  /\ In (mkPlan "24 månader" 24 1590.25 38760)
        [mkPlan "12 månader" 12 3131.5 38172;
         mkPlan "24 månader" 24 1590.25 38760]
  /\ (("within" = "within"
       /\ monthly (mkPlan "24 månader" 24 1590.25 38760) <= 2000)
      \/ ("within" = "above"
          /\ 2000 < monthly (mkPlan "24 månader" 24 1590.25 38760))).
Proof.
  assert (H : choose_best_plan_for_budget
                [mkPlan "12 månader" 12 3131.5 38172;
                 mkPlan "24 månader" 24 1590.25 38760] 2000
              = Ok (mkPlan "24 månader" 24 1590.25 38760, "within"))
    by reflexivity.
  split; [exact H | exact (budget_status_tells_fit _ _ _ _ H)].
Defined.

(** X5.  Ties go to the first plan of the list.  Of the plans before the
    returned one, those within budget have a strictly smaller monthly when
    the status is "within", and all have a strictly greater monthly when it
    is "above". *)
Theorem budget_matcher_first_found
    (plans : list Plan) (budget : Q) (best : Plan) (status : string) :
  choose_best_plan_for_budget plans budget = Ok (best, status) ->
  exists before after,
    plans = (before ++ best :: after)%list
    /\ forall q, In q before ->
                 (status = "within" ->
                  monthly q <= budget -> monthly q < monthly best)
                 /\ (status = "above" -> monthly best < monthly q).
Proof.
  intro H. apply budget_matcher_inversion in H.
  destruct H as [(u & us & E & -> & ->) | (x & rest & E & -> & -> & ->)].
  - destruct (max_scan_first _ _ Qltb monthly
                Qltb_irrefl Qltb_trans Qltb_negtrans us u)
      as (f1 & f2 & Hf & Hall).
    rewrite Hf in E.
    destruct (filter_split _ _ _ _ _ _ E) as (l1 & l2 & Hl & H1 & _).
    exists l1, l2. split; [exact Hl |].
    intros q Hq. split; [| discriminate].
    intros _ Hle. apply Qltb_lt.
    apply (proj1 (Forall_forall _ _) Hall).
    rewrite <- H1. apply under_or_equal_In. now split.
  - destruct (min_scan_first _ _ Qltb monthly
                Qltb_irrefl Qltb_trans Qltb_negtrans rest x)
      as (l1 & l2 & Hl & Hall).
    exists l1, l2. split; [exact Hl |].
    intros q Hq. split; [discriminate |].
    intros _. apply Qltb_lt. exact (proj1 (Forall_forall _ _) Hall q Hq).
Qed.

Lemma budget_matcher_first_found_witness :
  choose_best_plan_for_budget
    [mkPlan "a" 12 1590.25 1; mkPlan "b" 24 1590.25 2] 2000
  = Ok (mkPlan "a" 12 1590.25 1, "within")
  /\ exists before after,
       [mkPlan "a" 12 1590.25 1; mkPlan "b" 24 1590.25 2]
       = (before ++ mkPlan "a" 12 1590.25 1 :: after)%list
       /\ forall q, In q before ->
                    ("within" = "within" ->
                     monthly q <= 2000 ->
                     monthly q < monthly (mkPlan "a" 12 1590.25 1))
                    /\ ("within" = "above" ->
                        monthly (mkPlan "a" 12 1590.25 1) < monthly q).
Proof.
  assert (H : choose_best_plan_for_budget
                [mkPlan "a" 12 1590.25 1; mkPlan "b" 24 1590.25 2] 2000
              = Ok (mkPlan "a" 12 1590.25 1, "within"))
    by reflexivity.
  split; [exact H | exact (budget_matcher_first_found _ _ _ _ H)].
Defined.

(** ** More on the discount matcher *)

Lemma discount_matcher_inversion
    (plans : list Plan) (target tolerance : Q) (r : Plan) (flag : bool) :
  choose_discount_plan_to_match_price plans target tolerance = Ok (r, flag) ->
  (exists c0 cs rest,
      filter (fun p => Qle_bool (target - tolerance) (monthly p)
                       && Qle_bool (monthly p) (target + tolerance)) plans
      = c0 :: cs
      /\ sort_by tuple_ltb (fun p => (months p, distance target p)) (c0 :: cs)
         = r :: rest
      /\ flag = true)
  \/ (exists x rest,
         filter (fun p => Qle_bool (target - tolerance) (monthly p)
                          && Qle_bool (monthly p) (target + tolerance)) plans
         = []
         /\ plans = x :: rest
         /\ r = min_scan Qltb (distance target) x rest /\ flag = false).
Proof.
  unfold choose_discount_plan_to_match_price.
  destruct (filter _ plans) as [| c0 cs] eqn:E.
  - destruct plans as [| x rest]; [discriminate |]. simpl.
    intros [= <- <-]. right. exists x, rest. repeat split.
  - destruct (sort_by tuple_ltb _ (c0 :: cs)) as [| r0 rest0] eqn:Es;
      [discriminate |].
    simpl. intros [= <- <-]. left. exists c0, cs, rest0.
    split; [reflexivity |]. split; [exact Es | reflexivity].
Qed.

(** X8.  Ties go to the first plan of the list.  With flag true, every plan
    in the band that comes before the returned one has a longer term, or
    the same term and a strictly greater distance to the target; with flag
    false, every plan before the returned one is strictly farther from the
    target. *)
Theorem discount_matcher_first_found
    (plans : list Plan) (target tolerance : Q) (r : Plan) (flag : bool) :
  choose_discount_plan_to_match_price plans target tolerance = Ok (r, flag) ->
  exists before after,
    plans = (before ++ r :: after)%list
    /\ forall c, In c before ->
                 (flag = true -> in_band target tolerance c ->
                  (months r < months c)%Z
                  \/ (months r = months c
                      /\ distance target r < distance target c))
                 /\ (flag = false -> distance target r < distance target c).
Proof.
  intro H. apply discount_matcher_inversion in H.
  destruct H as [(c0 & cs & rest & E & Es & ->)
                | (x & rest & E & -> & -> & ->)].
  - destruct (sort_by_head_first _ _ tuple_ltb
                (fun p => (months p, distance target p)) _ _ _ Es)
      as (f1 & f2 & Hf & Hall).
    rewrite Hf in E.
    destruct (filter_split _ _ _ _ _ _ E) as (l1 & l2 & Hl & H1 & _).
    exists l1, l2. split; [exact Hl |].
    intros c Hc. split; [| discriminate].
    intros _ Hband.
    assert (Hk : tuple_ltb (months r, distance target r)
                           (months c, distance target c) = true).
    { apply (proj1 (Forall_forall _ _) Hall c).
      rewrite <- H1. apply candidates_In. now split. }
    apply tuple_ltb_lex in Hk. exact Hk.
  - destruct (min_scan_first _ _ Qltb (distance target)
                Qltb_irrefl Qltb_trans Qltb_negtrans rest x)
      as (l1 & l2 & Hl & Hall).
    exists l1, l2. split; [exact Hl |].
    intros c Hc. split; [discriminate |].
    intros _. apply Qltb_lt. exact (proj1 (Forall_forall _ _) Hall c Hc).
Qed.

Lemma discount_matcher_first_found_witness :
  choose_discount_plan_to_match_price
    [mkPlan "a" 24 1590 1; mkPlan "b" 24 1610 2] 1600 50
  = Ok (mkPlan "a" 24 1590 1, true)
  /\ exists before after,
       [mkPlan "a" 24 1590 1; mkPlan "b" 24 1610 2]
       = (before ++ mkPlan "a" 24 1590 1 :: after)%list
       /\ forall c, In c before ->
                    (true = true -> in_band 1600 50 c ->
                     (months (mkPlan "a" 24 1590 1) < months c)%Z
                     \/ (months (mkPlan "a" 24 1590 1) = months c
                         /\ distance 1600 (mkPlan "a" 24 1590 1)
                            < distance 1600 c))
                    /\ (true = false ->
                        distance 1600 (mkPlan "a" 24 1590 1)
                        < distance 1600 c).
Proof.
  assert (H : choose_discount_plan_to_match_price
                [mkPlan "a" 24 1590 1; mkPlan "b" 24 1610 2] 1600 50
              = Ok (mkPlan "a" 24 1590 1, true))
    by reflexivity.
  split; [exact H | exact (discount_matcher_first_found _ _ _ _ _ H)].
Defined.

(** ** More on the bonus table *)

(** X10.  More net sales never give a smaller bonus. *)
Theorem bonus_for_net_sales_monotone (n m : Z) :
  (n <= m)%Z -> (bonus_for_net_sales n <= bonus_for_net_sales m)%Z.
Proof.
  intro H. unfold bonus_for_net_sales. rewrite !Z.geb_leb.
  repeat match goal with
         | |- context [(?a <=? ?b)%Z] => destruct (Z.leb_spec a b)
         end; lia.
Qed.

Lemma bonus_for_net_sales_monotone_witness :
  (19 <= 20)%Z /\ (bonus_for_net_sales 19 <= bonus_for_net_sales 20)%Z.
Proof.
  assert (H : (19 <= 20)%Z) by lia.
  split; [exact H | exact (bonus_for_net_sales_monotone 19 20 H)].
Defined.

(** ** More on the script *)

Lemma in_term_labels_dec (l : string) :
  {In l term_labels} + {~ In l term_labels}.
Proof. apply in_dec, string_dec. Qed.

Lemma run_unknown_label (s : Sidebar) :
  ~ In (selected_term_label s) term_labels -> run s = Raise StopIteration.
Proof.
  intro Hsel. unfold run.
  destruct (compute_plans_total
              (inject_Z (financed_full (base_price s) (magnet_count s)
                                       (camera_count s) (fire_count s))))
    as [pf [Ef Hpf]].
  rewrite Ef. cbn [bind].
  assert (Hlab : map label pf = term_labels).
  { unfold term_labels. rewrite <- (compute_plans_over_shape _ _ _ Ef).
    rewrite map_map. reflexivity. }
  destruct (filter _ pf) as [| sel rest] eqn:F; [reflexivity |].
  exfalso. apply Hsel. rewrite <- Hlab.
  assert (Hin : In sel (sel :: rest)) by now left.
  rewrite <- F in Hin. apply filter_In in Hin as [Hin Heq].
  apply String.eqb_eq in Heq. rewrite <- Heq. now apply in_map.
Qed.

(** X11.  A run of the script raises nothing when the selected term label
    is one of the labels of the option list, and raises StopIteration (from
    [next]) when it is not; no other exception can occur. *)
Theorem run_raises_only_on_unknown_label (s : Sidebar) :
  (In (selected_term_label s) term_labels /\ exists o, run s = Ok o)
  \/ (~ In (selected_term_label s) term_labels
      /\ run s = Raise StopIteration).
Proof.
  destruct (in_term_labels_dec (selected_term_label s)) as [Hin | Hout].
  - left. split; [exact Hin | exact (run_total s Hin)].
  - right. split; [exact Hout | exact (run_unknown_label s Hout)].
Qed.

Lemma run_inversion_plans (s : Sidebar) (o : Outcome) :
  run s = Ok o ->
  compute_plans
    (inject_Z (financed_full (base_price s) (magnet_count s)
                             (camera_count s) (fire_count s)))
  = Ok (plans_full o)
  /\ In (selected_plan_full o) (plans_full o)
  /\ label (selected_plan_full o) = selected_term_label s
  /\ choose_best_plan_for_budget (plans_full o) (desired_monthly s)
     = Ok (best_budget_plan o, budget_status o)
  /\ offer_plan_for_calc o
     = match discount_plan o with
       | Some p => p
       | None => selected_plan_full o
       end
  /\ (forall p, discount_plan o = Some p ->
                exists plans_discount within_tol,
                  compute_plans
                    (inject_Z (financed_discount
                                 (base_price s) (magnet_count s)
                                 (camera_count s) (fire_count s)
                                 (charged_magnet s) (charged_camera s)
                                 (charged_fire s)))
                  = Ok plans_discount
                  /\ choose_discount_plan_to_match_price
                       plans_discount (desired_monthly s)
                       (inject_Z (tolerance s))
                     = Ok (p, within_tol)).
Proof.
  unfold run.
  destruct (compute_plans _) as [pf |] eqn:Ef; [cbn [bind] | discriminate].
  destruct (py_next _) as [sel |] eqn:Es; [cbn [bind] | discriminate].
  assert (Hsel : In sel pf /\ label sel = selected_term_label s).
  { destruct (filter _ pf) as [| x rest] eqn:F; [discriminate Es |].
    injection Es as ->. assert (Hin : In sel (sel :: rest)) by now left.
    rewrite <- F in Hin. apply filter_In in Hin as [Hin Heq].
    split; [exact Hin | now apply String.eqb_eq]. }
  destruct (choose_best_plan_for_budget pf _) as [[best status] |] eqn:Eb;
    [cbn [bind] | discriminate].
  destruct (discount_branch s).
  - cbv zeta.
    destruct (compute_plans (inject_Z (financed_discount _ _ _ _ _ _ _)))
      as [pd |] eqn:Ed; [cbn [bind] | discriminate].
    destruct (choose_discount_plan_to_match_price pd _ _) as [[dp within] |]
      eqn:Ec; [cbn [bind] | discriminate].
    intros [= <-].
    cbn [plans_full selected_plan_full best_budget_plan budget_status
         discount_plan offer_plan_for_calc].
    split; [first [reflexivity | exact Ef] |].
    split; [apply Hsel |]. split; [apply Hsel |].
    split; [first [reflexivity | exact Eb] |]. split; [reflexivity |].
    intros p [= <-]. exists pd, within.
    split; [first [reflexivity | exact Ed] | exact Ec].
  - cbn [bind]. intros [= <-].
    cbn [plans_full selected_plan_full best_budget_plan budget_status
         discount_plan offer_plan_for_calc].
    split; [first [reflexivity | exact Ef] |].
    split; [apply Hsel |]. split; [apply Hsel |].
    split; [first [reflexivity | exact Eb] |]. split; [reflexivity |].
    intros p Hp. discriminate Hp.
Qed.

(** X12.  In a completed run the 20% penalty is applied exactly when the
    discount section was entered, which is exactly when a discount plan
    exists. *)
Theorem penalty_iff_discount_section (s : Sidebar) :
  In (selected_term_label s) term_labels ->
  exists o,
    run s = Ok o
    /\ (has_comp (deal_commission o) = true <-> discount_branch s = true)
    /\ (discount_branch s = true <-> discount_plan o <> None).
Proof.
  intro Hsel. destruct (run_total s Hsel) as [o Ho].
  exists o. split; [exact Ho |].
  split; [exact (run_has_comp_iff_discount_branch s o Ho) |].
  exact (proj1 (proj2 (run_inversion s o Ho))).
Qed.

Lemma penalty_iff_discount_section_witness :
  In (selected_term_label billed_magnet_only) term_labels
  /\ exists o,
       run billed_magnet_only = Ok o
       /\ (has_comp (deal_commission o) = true
           <-> discount_branch billed_magnet_only = true)
       /\ (discount_branch billed_magnet_only = true
           <-> discount_plan o <> None).
Proof.
  assert (H : In (selected_term_label billed_magnet_only) term_labels)
    by (right; left; reflexivity).
  split; [exact H | exact (penalty_iff_discount_section billed_magnet_only H)].
Defined.

(** X13.  With non-negative counts and no "bjud" box ticked, the discount
    section is entered exactly when at least one extra is selected and at
    least one is not. *)
Theorem discount_section_without_comped_extra (s : Sidebar) :
  (0 <= magnet_count s)%Z -> (0 <= camera_count s)%Z ->
  (0 <= fire_count s)%Z ->
  bjud_magnet s = false -> bjud_camera s = false -> bjud_fire s = false ->
  (discount_branch s = true
   <-> (magnet_count s <> 0 \/ camera_count s <> 0 \/ fire_count s <> 0)%Z
       /\ (magnet_count s = 0 \/ camera_count s = 0 \/ fire_count s = 0)%Z).
Proof. exact (discount_branch_without_comp s). Qed.

Lemma discount_section_without_comped_extra_witness :
  (0 <= magnet_count billed_magnet_only)%Z
  /\ (0 <= camera_count billed_magnet_only)%Z
  /\ (0 <= fire_count billed_magnet_only)%Z
  /\ bjud_magnet billed_magnet_only = false
  /\ bjud_camera billed_magnet_only = false
  /\ bjud_fire billed_magnet_only = false
  /\ (discount_branch billed_magnet_only = true
      <-> (magnet_count billed_magnet_only <> 0
           \/ camera_count billed_magnet_only <> 0
           \/ fire_count billed_magnet_only <> 0)%Z
          /\ (magnet_count billed_magnet_only = 0
              \/ camera_count billed_magnet_only = 0
              \/ fire_count billed_magnet_only = 0)%Z).
Proof.
  assert (H1 : (0 <= magnet_count billed_magnet_only)%Z) by (simpl; lia).
  assert (H2 : (0 <= camera_count billed_magnet_only)%Z) by (simpl; lia).
  assert (H3 : (0 <= fire_count billed_magnet_only)%Z) by (simpl; lia).
  assert (H4 : bjud_magnet billed_magnet_only = false) by reflexivity.
  assert (H5 : bjud_camera billed_magnet_only = false) by reflexivity.
  assert (H6 : bjud_fire billed_magnet_only = false) by reflexivity.
  split; [exact H1 |]. split; [exact H2 |]. split; [exact H3 |].
  split; [exact H4 |]. split; [exact H5 |]. split; [exact H6 |].
  exact (discount_section_without_comped_extra
           billed_magnet_only H1 H2 H3 H4 H5 H6).
Defined.

(** X14.  In a completed run the selected plan is the generated plan whose
    label was selected, the plan shown for the budget is the budget
    matcher's answer on the same list, and the plan used for the
    commission and the comparison is the discount plan when there is one
    and the selected plan otherwise. *)
Theorem run_plans (s : Sidebar) :
  In (selected_term_label s) term_labels ->
  exists o,
    run s = Ok o
    /\ In (selected_plan_full o) (plans_full o)
    /\ label (selected_plan_full o) = selected_term_label s
    /\ choose_best_plan_for_budget (plans_full o) (desired_monthly s)
       = Ok (best_budget_plan o, budget_status o)
    /\ offer_plan_for_calc o
       = match discount_plan o with
         | Some p => p
         | None => selected_plan_full o
         end.
Proof.
  intro Hsel. destruct (run_total s Hsel) as [o Ho].
  exists o. split; [exact Ho |].
  destruct (run_inversion_plans s o Ho) as (_ & H1 & H2 & H3 & H4 & _).
  repeat split; assumption.
Qed.

Lemma run_plans_witness :
  In (selected_term_label billed_magnet_only) term_labels
  /\ exists o,
       run billed_magnet_only = Ok o
       /\ In (selected_plan_full o) (plans_full o)
       /\ label (selected_plan_full o)
          = selected_term_label billed_magnet_only
       /\ choose_best_plan_for_budget
            (plans_full o) (desired_monthly billed_magnet_only)
          = Ok (best_budget_plan o, budget_status o)
       /\ offer_plan_for_calc o
          = match discount_plan o with
            | Some p => p
            | None => selected_plan_full o
            end.
Proof.
  assert (H : In (selected_term_label billed_magnet_only) term_labels)
    by (right; left; reflexivity).
  split; [exact H | exact (run_plans billed_magnet_only H)].
Defined.

(** ** The discount figures *)

Lemma discount_flag_in_plans
    (plans : list Plan) (target tolerance : Q) (r : Plan) (flag : bool) :
  choose_discount_plan_to_match_price plans target tolerance = Ok (r, flag) ->
  In r plans.
Proof.
  intro H. apply discount_matcher_inversion in H.
  destruct H as [(c0 & cs & rest & E & Es & ->)
                | (x & rest & E & -> & -> & ->)].
  - destruct (sort_by_head_first _ _ tuple_ltb
                (fun p => (months p, distance target p)) _ _ _ Es)
      as (l1 & l2 & Hl & _).
    assert (Hin : In r (c0 :: cs)) by (rewrite Hl; apply in_elt).
    rewrite <- E in Hin. apply candidates_In in Hin. apply Hin.
  - apply min_scan_In.
Qed.


Lemma extras_charged_range (m c f : Z) (cm cc cf : bool) :
  (0 <= m)%Z -> (0 <= c)%Z -> (0 <= f)%Z ->
  (0 <= extras_charged m c f cm cc cf <= extras_total_full m c f)%Z.
Proof.
  intros Hm Hc Hf.
  unfold extras_charged, extras_total_full, EXTRA_MAGNET, EXTRA_CAMERA,
    EXTRA_FIRE.
  destruct cm, cc, cf; lia.
Qed.

Lemma percent_total_Ok (amount tot : Q) :
  exists pt,
    (if Qltb 0 tot then
       ratio <- truediv_float amount tot ;; Ok (ratio * 100)
     else Ok 0) = Ok pt.
Proof.
  destruct (Qltb 0 tot) eqn:E; [| eauto].
  unfold truediv_float. apply Qltb_lt in E.
  destruct (Qeq_bool tot 0) eqn:F; [| simpl; eauto].
  apply Qeq_bool_iff in F. rewrite F in E.
  exfalso. exact (Qlt_irrefl 0 E).
Qed.

Lemma percent_extras_Ok (value etf : Z) :
  exists pe,
    (if (etf >? 0)%Z then
       ratio <- truediv (inject_Z value) etf ;; Ok (ratio * 100)
     else Ok 0) = Ok pe
    /\ ((0 <= value <= etf)%Z -> 0 <= pe /\ pe <= 100).
Proof.
  destruct (etf >? 0)%Z eqn:E.
  - apply Z.gtb_lt in E.
    rewrite (truediv_Ok _ _ (not_eq_sym (Z.lt_neq _ _ E))). simpl.
    eexists. split; [reflexivity |]. intros [H0 H1].
    assert (Hp := inject_Z_pos _ E).
    assert (Hv0 : 0 <= inject_Z value)
      by (change 0 with (inject_Z 0); rewrite <- Zle_Qle; exact H0).
    assert (Hv1 : inject_Z value <= inject_Z etf)
      by (rewrite <- Zle_Qle; exact H1).
    assert (Hr0 : 0 <= inject_Z value / inject_Z etf).
    { apply Qle_shift_div_l; [exact Hp |]. lra. }
    assert (Hr1 : inject_Z value / inject_Z etf <= 1).
    { apply Qle_shift_div_r; [exact Hp |]. lra. }
    lra.
  - exists 0. split; [reflexivity |]. intros _. lra.
Qed.

Lemma discount_section_cases (s : Sidebar) (sel : Plan) :
  (discount_branch s = false
   /\ discount_section s sel = Ok (mkDiscountFigures None 0 0 0))
  \/ (discount_branch s = true
      /\ exists pd p w pt pe,
           compute_plans
             (inject_Z (financed_discount
                          (base_price s) (magnet_count s) (camera_count s)
                          (fire_count s) (charged_magnet s)
                          (charged_camera s) (charged_fire s)))
           = Ok pd
           /\ choose_discount_plan_to_match_price
                pd (desired_monthly s) (inject_Z (tolerance s))
              = Ok (p, w)
           /\ discount_section s sel
              = Ok (mkDiscountFigures (Some p) (total sel - total p) pt pe)
           /\ ((0 <= magnet_count s)%Z -> (0 <= camera_count s)%Z ->
               (0 <= fire_count s)%Z -> 0 <= pe /\ pe <= 100)).
Proof.
  unfold discount_section. destruct (discount_branch s); [right | now left].
  split; [reflexivity |]. cbv zeta.
  change (base_price s
          + extras_charged (magnet_count s) (camera_count s) (fire_count s)
                           (charged_magnet s) (charged_camera s)
                           (charged_fire s)
          + INSTALLATION_COST)%Z
    with (financed_discount (base_price s) (magnet_count s) (camera_count s)
                            (fire_count s) (charged_magnet s)
                            (charged_camera s) (charged_fire s)).
  destruct (compute_plans_total
              (inject_Z (financed_discount
                           (base_price s) (magnet_count s) (camera_count s)
                           (fire_count s) (charged_magnet s)
                           (charged_camera s) (charged_fire s))))
    as [pd [Ed Hpd]].
  destruct (choose_discount_plan_to_match_price_total
              pd (desired_monthly s) (inject_Z (tolerance s)) Hpd)
    as [[p w] Ec].
  destruct (percent_total_Ok (total sel - total p) (total sel)) as [pt Ept].
  destruct (percent_extras_Ok
              (extras_total_full (magnet_count s) (camera_count s)
                                 (fire_count s)
               - extras_charged (magnet_count s) (camera_count s)
                                (fire_count s) (charged_magnet s)
                                (charged_camera s) (charged_fire s))
              (extras_total_full (magnet_count s) (camera_count s)
                                 (fire_count s)))
    as [pe [Epe Hpe]].
  exists pd, p, w, pt, pe. split; [exact Ed |]. split; [exact Ec |].
  split.
  - rewrite Ed. cbn [bind]. rewrite Ec. cbn [bind].
    rewrite Ept. cbn [bind]. rewrite Epe. cbn [bind]. reflexivity.
  - intros Hm Hc Hf. apply Hpe.
    assert (Hr := extras_charged_range
                    (magnet_count s) (camera_count s) (fire_count s)
                    (charged_magnet s) (charged_camera s) (charged_fire s)
                    Hm Hc Hf).
    lia.
Qed.

(** X15.  With non-negative counts the discount section raises nothing,
    whatever plan is selected: both divisions are guarded.  It offers a
    plan exactly when the discount branch is taken, and the discount on the
    extras is a percentage between 0 and 100. *)
Theorem discount_percent_extras_range (s : Sidebar) (selected : Plan) :
  (0 <= magnet_count s)%Z -> (0 <= camera_count s)%Z ->
  (0 <= fire_count s)%Z ->
  exists d,
    discount_section s selected = Ok d
    /\ (offered_plan d <> None <-> discount_branch s = true)
    /\ 0 <= discount_percent_extras d
    /\ discount_percent_extras d <= 100.
Proof.
  intros Hm Hc Hf.
  destruct (discount_section_cases s selected)
    as [[Hb E] | [Hb (pd & p & w & pt & pe & _ & _ & E & Hpe)]].
  - eexists. split; [exact E |]. simpl. rewrite Hb.
    split; [split; [congruence | discriminate] |]. split; lra.
  - eexists. split; [exact E |]. simpl. rewrite Hb.
    split; [split; [reflexivity | discriminate] |].
    exact (Hpe Hm Hc Hf).
Qed.

Lemma discount_percent_extras_range_witness :
  (0 <= magnet_count billed_magnet_only)%Z
  /\ (0 <= camera_count billed_magnet_only)%Z
  /\ (0 <= fire_count billed_magnet_only)%Z
  /\ exists d,
       discount_section billed_magnet_only
                        (mkPlan "12 månader" 12 3249 39582) = Ok d
       /\ (offered_plan d <> None <-> discount_branch billed_magnet_only = true)
       /\ 0 <= discount_percent_extras d
       /\ discount_percent_extras d <= 100.
Proof.
  assert (H1 : (0 <= magnet_count billed_magnet_only)%Z) by (simpl; lia).
  assert (H2 : (0 <= camera_count billed_magnet_only)%Z) by (simpl; lia).
  assert (H3 : (0 <= fire_count billed_magnet_only)%Z) by (simpl; lia).
  split; [exact H1 |]. split; [exact H2 |]. split; [exact H3 |].
  exact (discount_percent_extras_range billed_magnet_only _ H1 H2 H3).
Defined.

(** ** The competitor comparison *)

Lemma SERVICE_MONTHLY_is_99 : SERVICE_MONTHLY == 99.
Proof. reflexivity. Qed.

(** X17.  In every row of the comparison the months of the horizon are
    split between months at the full monthly cost and months at the
    service cost: none is counted twice or left out, the months at full
    cost never exceed the term, and the service months are never
    negative. *)
Theorem horizon_months_split (plan : Plan) (comp_monthly comp_start : Q) :
  Forall (fun r =>
            (months_full r + months_service r = horizon_months r)%Z
            /\ (months_full r <= months plan)%Z
            /\ (0 <= months_service r)%Z)
         (long_term_comparison plan comp_monthly comp_start).
Proof.
  unfold long_term_comparison, horizons. cbn [map].
  repeat (apply Forall_cons;
          [cbn [months_full months_service horizon_months]; lia |]).
  apply Forall_nil.
Qed.

(** X18.  For a generated plan, a horizon that reaches the end of the term
    costs the plan's total plus 99 for every month after the term, and a
    horizon within the term costs the start fee plus the monthly cost of
    its months. *)
Theorem horizon_cost_of_generated_plan
    (financed_amount comp_monthly comp_start : Q) :
  exists plans,
    compute_plans financed_amount = Ok plans
    /\ forall p,
         In p plans ->
         Forall (fun r =>
                   ((months p <= horizon_months r)%Z ->
                    our_total r
                    == total p + 99 * inject_Z (horizon_months r - months p))
                   /\ ((horizon_months r <= months p)%Z ->
                       our_total r
                       == 594 + monthly p * inject_Z (horizon_months r)))
                (long_term_comparison p comp_monthly comp_start).
Proof.
  destruct (compute_plans_total financed_amount) as [plans [E _]].
  exists plans. split; [exact E |]. intros p Hp.
  assert (Hplan := compute_plans_over_plan _ _ _ E).
  destruct (proj1 (Forall_forall _ _) Hplan p Hp) as (_ & _ & Ht).
  unfold long_term_comparison, horizons. cbn [map].
  repeat (apply Forall_cons;
          [cbn [our_total horizon_months]; split; intro Hle;
           [ rewrite (Z.min_r _ _ Hle),
               (Z.max_r 0 _ (Zle_minus_le_0 _ _ Hle)), Ht,
               SERVICE_MONTHLY_is_99;
             change (inject_Z START_FEE) with 594; ring
           | rewrite (Z.min_l _ _ Hle),
               (Z.max_l 0 _ (proj2 (Z.le_sub_0 _ _) Hle)),
               SERVICE_MONTHLY_is_99;
             change (inject_Z START_FEE) with 594;
             change (inject_Z 0) with 0; ring ] |]).
  apply Forall_nil.
Qed.

(** ** More on the commission *)

(** X20.  With non-negative counts the commission before the penalty is at
    least 3500, the penalty is never negative and never raises the
    commission, and the commission after the penalty plus the penalty
    shown is the commission before it. *)
Theorem penalty_never_raises_commission
    (magnet_count camera_count fire_count : Z)
    (charged_magnet charged_camera charged_fire : bool)
    (discount_plan : option Plan) (miles_driven : Q) :
  (0 <= magnet_count)%Z -> (0 <= camera_count)%Z -> (0 <= fire_count)%Z ->
  let deal :=
    commission magnet_count camera_count fire_count
               charged_magnet charged_camera charged_fire
               discount_plan miles_driven in
  3500 <= total_before_comp deal
  /\ 0 <= comp_penalty deal
  /\ total_after_comp deal <= total_before_comp deal
  /\ total_after_comp deal + comp_penalty deal == total_before_comp deal.
Proof.
  intros Hm Hc Hf deal. subst deal. unfold commission. cbv zeta.
  cbn [total_before_comp comp_penalty total_after_comp].
  assert (Hr := extras_charged_range magnet_count camera_count fire_count
                  charged_magnet charged_camera charged_fire Hm Hc Hf).
  assert (He : 0 <= inject_Z (extras_charged magnet_count camera_count
                                             fire_count charged_magnet
                                             charged_camera charged_fire)).
  { change 0 with (inject_Z 0). rewrite <- Zle_Qle. lia. }
  generalize dependent (inject_Z (extras_charged magnet_count camera_count
                                                 fire_count charged_magnet
                                                 charged_camera charged_fire)).
  intros e He.
  unfold BASE_COMMISSION_PER_DEAL, INSTALLATION_COST, UPSELL_COMMISSION_RATE,
    INSTALL_COMMISSION_RATE, COMPENSATION_PENALTY_RATE.
  destruct (truthy magnet_count && negb charged_magnet
            || truthy camera_count && negb charged_camera
            || truthy fire_count && negb charged_fire
            || match discount_plan with Some _ => true | None => false end);
    change (inject_Z 2500) with 2500; change (inject_Z 5000) with 5000;
    repeat split; lra.
Qed.

Lemma penalty_never_raises_commission_witness :
  (0 <= 2)%Z /\ (0 <= 1)%Z /\ (0 <= 0)%Z
  /\ let deal := commission 2 1 0 true false false None 12 in
     3500 <= total_before_comp deal
     /\ 0 <= comp_penalty deal
     /\ total_after_comp deal <= total_before_comp deal
     /\ total_after_comp deal + comp_penalty deal == total_before_comp deal.
Proof.
  assert (H2 : (0 <= 2)%Z) by lia.
  assert (H1 : (0 <= 1)%Z) by lia.
  assert (H0 : (0 <= 0)%Z) by lia.
  split; [exact H2 |]. split; [exact H1 |]. split; [exact H0 |].
  exact (penalty_never_raises_commission
           2 1 0 true false false None 12 H2 H1 H0).
Defined.

(** ** The commission formula *)

Lemma commission_figures
    (magnet_count camera_count fire_count : Z)
    (charged_magnet charged_camera charged_fire : bool)
    (discount_plan : option Plan) (miles_driven : Q) :
  let deal :=
    commission magnet_count camera_count fire_count
               charged_magnet charged_camera charged_fire
               discount_plan miles_driven in
  let billed :=
    inject_Z (extras_charged magnet_count camera_count fire_count
                             charged_magnet charged_camera charged_fire) in
  total_after_comp deal
  == (2500 + 0.10 * billed + 0.20 * 5000)
     * (if has_comp deal then 0.8 else 1)
  /\ mile_comp_total deal == miles_driven * 25.50
  /\ total_with_miles deal == total_after_comp deal + miles_driven * 25.50.
Proof.
  intros deal billed. subst deal. simpl.
  fold billed.
  destruct (truthy magnet_count && negb charged_magnet
            || truthy camera_count && negb charged_camera
            || truthy fire_count && negb charged_fire
            || match discount_plan with Some _ => true | None => false end);
    unfold BASE_COMMISSION_PER_DEAL, INSTALLATION_COST, UPSELL_COMMISSION_RATE,
      INSTALL_COMMISSION_RATE, COMPENSATION_PENALTY_RATE, MILE_COMP;
    repeat split; ring.
Qed.

(** C4.  The total compensation of a deal is
    (2500 + 0.10 * billed extras + 0.20 * 5000), times 0.8 exactly when a
    selected extra is comped or a discount plan is used, plus
    miles * 25.50; the travel reimbursement is miles * 25.50 with or
    without the penalty. *)
Theorem total_compensation_formula
    (magnet_count camera_count fire_count : Z)
    (charged_magnet charged_camera charged_fire : bool)
    (discount_plan : option Plan) (miles_driven : Q) :
  let deal :=
    commission magnet_count camera_count fire_count
               charged_magnet charged_camera charged_fire
               discount_plan miles_driven in
  let billed :=
    inject_Z (extras_charged magnet_count camera_count fire_count
                             charged_magnet charged_camera charged_fire) in
  let penalised :=
    (magnet_count <> 0%Z /\ charged_magnet = false)
    \/ (camera_count <> 0%Z /\ charged_camera = false)
    \/ (fire_count <> 0%Z /\ charged_fire = false)
    \/ discount_plan <> None in
  (penalised ->
   total_with_miles deal
   == (2500 + 0.10 * billed + 0.20 * 5000) * 0.8 + miles_driven * 25.50)
  /\ (~ penalised ->
      total_with_miles deal
      == (2500 + 0.10 * billed + 0.20 * 5000) + miles_driven * 25.50)
  /\ mile_comp_total deal == miles_driven * 25.50
  /\ total_with_miles deal == total_after_comp deal + mile_comp_total deal.
Proof.
  intros deal billed penalised.
  destruct (commission_figures magnet_count camera_count fire_count
              charged_magnet charged_camera charged_fire
              discount_plan miles_driven) as (Hafter & Hmile & Htotal).
  fold deal in Hafter, Hmile, Htotal. fold billed in Hafter.
  assert (Hiff := has_comp_iff magnet_count camera_count fire_count
                    charged_magnet charged_camera charged_fire
                    discount_plan miles_driven).
  fold deal in Hiff. fold penalised in Hiff.
  split; [| split; [| split]].
  - intro Hp. apply Hiff in Hp. rewrite Hp in Hafter.
    rewrite Htotal, Hafter. reflexivity.
  - intro Hn. destruct (has_comp deal) eqn:E.
    + exfalso. apply Hn, Hiff. reflexivity.
    + rewrite Htotal, Hafter. ring.
  - exact Hmile.
  - rewrite Htotal, Hmile. reflexivity.
Qed.

(** * The arithmetic with rounding *)

(** ** Rounding *)

Lemma unit_roundoff_small : 0 < unit_roundoff /\ unit_roundoff <= 1 # 1000000.
Proof. split; reflexivity || discriminate. Qed.

Lemma min_normal_small : 0 < min_normal /\ min_normal <= 1 # 1000.
Proof. split; vm_compute; reflexivity || discriminate. Qed.

Lemma max_float_large : 1000000000000000000 <= max_float.
Proof. vm_compute. discriminate. Qed.

(** Rounding that changes nothing keeps the order and is nearly exact. *)
Lemma exact_monotone : monotone (fun x => x).
Proof. intros x y H. exact H. Qed.

Lemma exact_nearly_exact : nearly_exact (fun x => x).
Proof.
  intros x Hlo Hhi.
  destruct min_normal_small as [Hm _]. destruct unit_roundoff_small as [Hu _].
  assert (Hx : 0 <= x) by lra.
  generalize dependent unit_roundoff. intros u Hu.
  split; nra.
Qed.

(** ** The plan generator with rounding *)

Lemma rounded_truediv_Ok (rnd : Q -> Q) (a : Q) (b : Z) :
  b <> 0%Z -> Rounded.truediv rnd a b = Ok (rnd (a / inject_Z b)).
Proof.
  intro H. unfold Rounded.truediv. now destruct (Z.eqb_spec b 0).
Qed.

Lemma rounded_plans_over_shape (rnd : Q -> Q)
    (options : list (string * Z)) (fa : Q) :
  forall plans,
    Rounded.compute_plans_over rnd options fa = Ok plans ->
    map (fun p => (label p, months p)) plans = options.
Proof.
  induction options as [| [l m] rest IH]; simpl; intros plans H.
  - now injection H as <-.
  - unfold Rounded.truediv in H. destruct (m =? 0)%Z; [discriminate |].
    simpl in H.
    destruct (Rounded.compute_plans_over rnd rest fa) as [ps |];
      [| discriminate].
    injection H as <-. simpl. now rewrite (IH ps).
Qed.

Lemma rounded_plans_over_plan (rnd : Q -> Q)
    (options : list (string * Z)) (fa : Q) :
  forall plans,
    Rounded.compute_plans_over rnd options fa = Ok plans ->
    Forall (fun p =>
              monthly p
              = rnd (rnd (fa / inject_Z (months p)) + inject_Z ADMIN_MONTHLY)
              /\ total p
                 = rnd (rnd (monthly p * inject_Z (months p))
                        + inject_Z START_FEE))
           plans.
Proof.
  induction options as [| [l m] rest IH]; simpl; intros plans H.
  - injection H as <-. constructor.
  - unfold Rounded.truediv in H. destruct (Z.eqb_spec m 0); [discriminate |].
    simpl in H.
    destruct (Rounded.compute_plans_over rnd rest fa) as [ps |];
      [| discriminate].
    injection H as <-. constructor; [now split | now apply IH].
Qed.

Lemma rounded_plans_total (rnd : Q -> Q) (fa : Q) :
  exists plans, Rounded.compute_plans rnd fa = Ok plans /\ plans <> [].
Proof.
  eexists. split; [reflexivity | discriminate].
Qed.

Lemma rounded_plans_seven (rnd : Q -> Q) (fa : Q) (plans : list Plan) :
  Rounded.compute_plans rnd fa = Ok plans ->
  exists p1 p2 p3 p4 p5 p6 p7,
    plans = [p1; p2; p3; p4; p5; p6; p7]
    /\ months p1 = 3%Z /\ months p2 = 12%Z /\ months p3 = 24%Z
    /\ months p4 = 36%Z /\ months p5 = 60%Z /\ months p6 = 72%Z
    /\ months p7 = 120%Z.
Proof.
  intro E. assert (Hshape := rounded_plans_over_shape _ _ _ _ E).
  destruct plans
    as [| p1 [| p2 [| p3 [| p4 [| p5 [| p6 [| p7 [| p8 rest]]]]]]]];
    try discriminate Hshape.
  injection Hshape as _ H1 _ H2 _ H3 _ H4 _ H5 _ H6 _ H7.
  exists p1, p2, p3, p4, p5, p6, p7. repeat split; assumption.
Qed.

Lemma rounded_plans_months_range (rnd : Q -> Q) (fa : Q)
    (plans : list Plan) (p : Plan) :
  Rounded.compute_plans rnd fa = Ok plans -> In p plans ->
  (3 <= months p <= 120)%Z.
Proof.
  intros E Hp.
  destruct (rounded_plans_seven _ _ _ E)
    as (p1 & p2 & p3 & p4 & p5 & p6 & p7 & -> & H).
  simpl in Hp. intuition (subst; lia).
Qed.

Lemma rounded_plans_monthly (rnd : Q -> Q) (fa : Q)
    (plans : list Plan) (p : Plan) :
  Rounded.compute_plans rnd fa = Ok plans -> In p plans ->
  monthly p = rnd (rnd (fa / inject_Z (months p)) + 49).
Proof.
  intros E Hp. apply rounded_plans_over_plan in E.
  exact (proj1 (proj1 (Forall_forall _ _) E p Hp)).
Qed.

Lemma rounded_plans_months_increasing (rnd : Q -> Q) (fa : Q)
    (plans : list Plan) (i j : nat) (p q : Plan) :
  Rounded.compute_plans rnd fa = Ok plans -> (i < j)%nat ->
  nth_error plans i = Some p -> nth_error plans j = Some q ->
  (months p < months q)%Z.
Proof.
  intros E Hij Hi Hj. apply rounded_plans_over_shape in E.
  apply (StronglySorted_nth_error _ _ _ PAYMENT_OPTIONS_increasing i j _ _ Hij).
  - rewrite <- E, map_map. now apply (map_nth_error (fun p => months p)).
  - rewrite <- E, map_map. now apply (map_nth_error (fun p => months p)).
Qed.

(** With rounding that keeps the order a longer term still gives no higher
    monthly payment. *)
Lemma rounded_monthly_antitone (rnd : Q -> Q) (fa : Q) (a b : Z) :
  monotone rnd -> 0 <= fa -> (0 < a)%Z -> (a <= b)%Z ->
  rnd (rnd (fa / inject_Z b) + 49) <= rnd (rnd (fa / inject_Z a) + 49).
Proof.
  intros Hmono Hfa Ha Hab. apply Hmono.
  apply Qplus_le_compat; [| apply Qle_refl].
  apply Hmono. now apply Qdiv_term_le.
Qed.

Lemma Qdiv_nonneg (x : Q) (a : Z) : 0 <= x -> (0 < a)%Z -> 0 <= x / inject_Z a.
Proof.
  intros Hx Ha. apply Qle_shift_div_l; [now apply inject_Z_pos | lra].
Qed.

(** Of two terms up to 120, the longer one takes at least a 120th off the
    financed part of the payment. *)
Lemma Qdiv_term_gap (x : Q) (a b : Z) :
  0 <= x -> (0 < a)%Z -> (a < b)%Z -> (b <= 120)%Z ->
  x / inject_Z b <= (119 # 120) * (x / inject_Z a).
Proof.
  intros Hx Ha Hab Hb.
  assert (HA := inject_Z_pos a Ha).
  assert (HB := inject_Z_pos b (Z.lt_trans _ _ _ Ha Hab)).
  assert (Hy := Qdiv_nonneg x a Hx Ha).
  assert (Hr : inject_Z a / inject_Z b <= 119 # 120).
  { apply Qle_shift_div_r; [exact HB |].
    assert (Hz : inject_Z (120 * a) <= inject_Z (119 * b))
      by (rewrite <- Zle_Qle; lia).
    rewrite !inject_Z_mult in Hz.
    change (inject_Z 120) with 120 in Hz. change (inject_Z 119) with 119 in Hz.
    lra. }
  assert (Hs : x / inject_Z b == (x / inject_Z a) * (inject_Z a / inject_Z b)).
  { field. split; intro H0; rewrite H0 in *; [exact (Qlt_irrefl 0 HB)
                                             | exact (Qlt_irrefl 0 HA)]. }
  rewrite Hs, (Qmult_comm (119 # 120)), (Qmult_comm (x / inject_Z a)).
  rewrite (Qmult_comm (x / inject_Z a) (119 # 120)).
  apply Qmult_le_compat_r; [exact Hr | exact Hy].
Qed.

(** For an amount of at least 1, rounding cannot close the gap between the
    payments of two different terms. *)
Lemma rounded_monthly_strict (rnd : Q -> Q) (fa : Q) (a b : Z) :
  nearly_exact rnd -> 1 <= fa -> fa <= max_float ->
  (3 <= a)%Z -> (a < b)%Z -> (b <= 120)%Z ->
  rnd (rnd (fa / inject_Z b) + 49) < rnd (rnd (fa / inject_Z a) + 49).
Proof.
  intros Hrnd Hlo Hhi Ha Hab Hb.
  assert (Hfa : 0 <= fa) by lra.
  assert (Ga := Qdiv_term_gap fa a b Hfa ltac:(lia) Hab Hb).
  assert (Ua := Qdiv_term_le fa 3 a Hfa ltac:(lia) Ha).
  assert (La := Qdiv_term_le fa a 120 Hfa ltac:(lia) ltac:(lia)).
  assert (Lb := Qdiv_term_le fa b 120 Hfa ltac:(lia) Hb).
  assert (Ub := Qdiv_term_le fa a b Hfa ltac:(lia) ltac:(lia)).
  change (inject_Z 3) with 3 in Ua. change (inject_Z 120) with 120 in La, Lb.
  destruct min_normal_small as [_ Hmin]. assert (Hmax := max_float_large).
  remember (fa / inject_Z a) as xa eqn:Exa. clear Exa.
  remember (fa / inject_Z b) as xb eqn:Exb. clear Exb.
  assert (L120 : 120 * (fa / 120) == fa) by field.
  assert (U3 : 3 * (fa / 3) == fa) by field.
  remember (fa / 120) as x120 eqn:E120. clear E120.
  remember (fa / 3) as x3 eqn:E3. clear E3.
  destruct (Hrnd xa ltac:(lra) ltac:(lra)) as [Qa1 Qa2].
  destruct (Hrnd xb ltac:(lra) ltac:(lra)) as [Qb1 Qb2].
  unfold unit_roundoff in *.
  destruct (Hrnd (rnd xa + 49) ltac:(lra) ltac:(lra)) as [Ta1 Ta2].
  destruct (Hrnd (rnd xb + 49) ltac:(lra) ltac:(lra)) as [Tb1 Tb2].
  unfold unit_roundoff in *.
  lra.
Qed.

(** C10 as stated fails on the code: in binary64 the positive amount
    2^-1000 is absorbed by the admin fee, and the 3-month and the
    120-month plan have the same monthly payment. *)
Lemma monthly_not_strictly_decreasing_in_binary64 :
  (0 <? 0x1p-1000)%float = true
  /\ exists p q,
       hd_error (Binary64.compute_plans 0x1p-1000) = Some p
       /\ nth_error (Binary64.compute_plans 0x1p-1000) 6 = Some q
       /\ Binary64.fmonths p = 3%Z /\ Binary64.fmonths q = 120%Z
       /\ Binary64.fmonthly p = 49%float
       /\ Binary64.fmonthly q = 49%float.
Proof.
  split; [reflexivity |].
  eexists. eexists. split; [vm_compute; reflexivity |].
  split; [vm_compute; reflexivity |]. repeat split.
Qed.

(** C10, amended.  For every financed amount >= 0 the generator returns one
    plan per entry of the option list, in the same order; along the list
    the terms grow and the monthly payments do not, and they strictly
    decrease when the financed amount is at least 1 (below that, rounding
    can make them equal); so the 3-month plan has the highest monthly
    payment and the 120-month plan the lowest.  Rounding enters through
    its two guarantees only. *)
Theorem compute_plans_monthly_decreasing (rnd : Q -> Q) (financed_amount : Q) :
  monotone rnd -> nearly_exact rnd -> 0 <= financed_amount ->
  exists plans,
    Rounded.compute_plans rnd financed_amount = Ok plans
    /\ map (fun p => (label p, months p)) plans = PAYMENT_OPTIONS
    /\ (forall i j p q,
           (i < j)%nat ->
           nth_error plans i = Some p -> nth_error plans j = Some q ->
           (months p < months q)%Z
           /\ monthly q <= monthly p
           /\ (1 <= financed_amount -> financed_amount <= max_float ->
               monthly q < monthly p))
    /\ exists p3 p120,
         hd_error plans = Some p3 /\ months p3 = 3%Z
         /\ nth_error plans 6 = Some p120 /\ months p120 = 120%Z
         /\ forall p, In p plans ->
                      monthly p120 <= monthly p /\ monthly p <= monthly p3.
Proof.
  intros Hmono Hrnd Hfa.
  destruct (rounded_plans_total rnd financed_amount) as [plans [E _]].
  exists plans. split; [exact E |].
  split; [exact (rounded_plans_over_shape _ _ _ _ E) |]. split.
  - intros i j p q Hij Hi Hj.
    assert (Hm := rounded_plans_months_increasing _ _ _ _ _ _ _ E Hij Hi Hj).
    assert (Hp := nth_error_In _ _ Hi). assert (Hq := nth_error_In _ _ Hj).
    assert (Rp := rounded_plans_months_range _ _ _ _ E Hp).
    assert (Rq := rounded_plans_months_range _ _ _ _ E Hq).
    rewrite (rounded_plans_monthly _ _ _ _ E Hp),
      (rounded_plans_monthly _ _ _ _ E Hq).
    split; [exact Hm |]. split.
    + apply rounded_monthly_antitone; [exact Hmono | exact Hfa | lia | lia].
    + intros Hlo Hhi.
      apply rounded_monthly_strict;
        [exact Hrnd | exact Hlo | exact Hhi | lia | exact Hm | lia].
  - destruct (rounded_plans_seven _ _ _ E)
      as (p1 & p2 & p3 & p4 & p5 & p6 & p7 & Hl & H1 & H2 & H3 & H4 & H5
          & H6 & H7).
    exists p1, p7. rewrite Hl.
    do 4 (split; [assumption || reflexivity |]).
    intros p Hp. rewrite <- Hl in Hp.
    assert (Rp := rounded_plans_months_range _ _ _ _ E Hp).
    assert (In1 : In p1 plans) by (rewrite Hl; now left).
    assert (In7 : In p7 plans) by (rewrite Hl; now do 6 right; left).
    rewrite (rounded_plans_monthly _ _ _ _ E Hp),
      (rounded_plans_monthly _ _ _ _ E In1),
      (rounded_plans_monthly _ _ _ _ E In7).
    split; apply rounded_monthly_antitone;
      try exact Hmono; try exact Hfa; lia.
Qed.

Lemma compute_plans_monthly_decreasing_witness :
  monotone (fun x => x) /\ nearly_exact (fun x => x) /\ 0 <= 36990
  /\ exists plans,
       Rounded.compute_plans (fun x => x) 36990 = Ok plans
       /\ map (fun p => (label p, months p)) plans = PAYMENT_OPTIONS
       /\ (forall i j p q,
              (i < j)%nat ->
              nth_error plans i = Some p -> nth_error plans j = Some q ->
              (months p < months q)%Z
              /\ monthly q <= monthly p
              /\ (1 <= 36990 -> 36990 <= max_float ->
                  monthly q < monthly p))
       /\ exists p3 p120,
            hd_error plans = Some p3 /\ months p3 = 3%Z
            /\ nth_error plans 6 = Some p120 /\ months p120 = 120%Z
            /\ forall p, In p plans ->
                         monthly p120 <= monthly p /\ monthly p <= monthly p3.
Proof.
  assert (H : 0 <= 36990) by (unfold Qle; simpl; lia).
  split; [exact exact_monotone |]. split; [exact exact_nearly_exact |].
  split; [exact H |].
  exact (compute_plans_monthly_decreasing
           (fun x => x) 36990 exact_monotone exact_nearly_exact H).
Defined.

(** In binary64 itself the monthly payments strictly decrease along the
    list for each of the 1024 financed amounts of [sidebar_amounts]. *)
Lemma binary64_sidebar_amounts_strictly_decreasing :
  forallb (fun amount =>
             Binary64.strictly_decreasing
               (map Binary64.fmonthly
                    (Binary64.compute_plans (Binary64.of_int amount))))
          Binary64.sidebar_amounts
  = true.
Proof. vm_compute. reflexivity. Qed.

(** ** The discount matcher with rounding *)

Lemma rounded_candidates_In (rnd : Q -> Q)
    (plans : list Plan) (target tolerance : Q) (p : Plan) :
  In p (filter (fun p => Qle_bool (rnd (target - tolerance)) (monthly p)
                         && Qle_bool (monthly p) (rnd (target + tolerance)))
               plans)
  <-> In p plans /\ Rounded.in_band rnd target tolerance p.
Proof.
  rewrite filter_In, andb_true_iff, !Qle_bool_iff. reflexivity.
Qed.

Lemma rounded_matcher_inversion (rnd : Q -> Q)
    (plans : list Plan) (target tolerance : Q) (r : Plan) (flag : bool) :
  Rounded.choose_discount_plan_to_match_price rnd plans target tolerance
  = Ok (r, flag) ->
  (exists c0 cs rest,
      filter (fun p => Qle_bool (rnd (target - tolerance)) (monthly p)
                       && Qle_bool (monthly p) (rnd (target + tolerance)))
             plans
      = c0 :: cs
      /\ sort_by tuple_ltb
                 (fun p => (months p, Rounded.distance rnd target p))
                 (c0 :: cs)
         = r :: rest
      /\ flag = true)
  \/ (exists x rest,
         filter (fun p => Qle_bool (rnd (target - tolerance)) (monthly p)
                          && Qle_bool (monthly p) (rnd (target + tolerance)))
                plans
         = []
         /\ plans = x :: rest
         /\ r = min_scan Qltb (Rounded.distance rnd target) x rest
         /\ flag = false).
Proof.
  unfold Rounded.choose_discount_plan_to_match_price.
  destruct (filter _ plans) as [| c0 cs] eqn:E.
  - destruct plans as [| x rest]; [discriminate |]. simpl.
    intros [= <- <-]. right. exists x, rest. repeat split.
  - destruct (sort_by tuple_ltb _ (c0 :: cs)) as [| r0 rest0] eqn:Es;
      [discriminate |].
    simpl. intros [= <- <-]. left. exists c0, cs, rest0.
    split; [reflexivity |]. split; [exact Es | reflexivity].
Qed.

(** C3 as stated fails on the code.  On the empty plan list no plan is in
    any band and [min] raises instead of returning a plan.  And the band
    and the distances are the computed ones, not the exact ones: in
    binary64, with plans of 100 and 101 a month and target 10^17, both
    computed distances are 10^17 and the matcher returns the plan of 100,
    though 101 is closer; with target 9007199254740994 and tolerance 1 a
    plan of 9007199254740992 a month is matched with flag true, though it
    lies below target - tolerance. *)
Lemma discount_matcher_not_as_stated :
  (choose_discount_plan_to_match_price [] 0 0 = Raise ValueError
   /\ ~ discount_matcher_spec [] 0 0)
  /\ (Binary64.choose_discount_plan_to_match_price
        [Binary64.mkFPlan "a" 12 100 0; Binary64.mkFPlan "b" 12 101 0]
        1e17 0
      = Ok (Binary64.mkFPlan "a" 12 100 0, false)
      /\ Qabs (101 - 100000000000000000) < Qabs (100 - 100000000000000000))
  /\ (Binary64.choose_discount_plan_to_match_price
        [Binary64.mkFPlan "a" 12 9007199254740992 0] 9007199254740994 1
      = Ok (Binary64.mkFPlan "a" 12 9007199254740992 0, true)
      /\ 9007199254740992 < 9007199254740994 - 1).
Proof.
  split; [| split].
  - split; [reflexivity |].
    intros [_ H]. destruct H as (nearest & _ & [] & _).
    intros (p & [] & _).
  - split; [vm_compute; reflexivity | reflexivity].
  - split; [vm_compute; reflexivity | reflexivity].
Qed.

(** C3, amended.  For every non-empty plan list, target and tolerance, in
    the quantities the code computes (the rounded bounds target - tolerance
    and target + tolerance, the rounded differences to the target): if
    some plan's monthly lies between the computed bounds, the matcher
    returns, with flag true, such a plan with the shortest term of all
    those plans and, among those of that term, the smallest computed
    distance to the target; otherwise it returns, with flag false, a plan
    of the list with the smallest computed distance to the target. *)
Theorem choose_discount_plan_to_match_price_spec (rnd : Q -> Q)
    (plans : list Plan) (target tolerance : Q) :
  plans <> [] -> Rounded.discount_matcher_spec rnd plans target tolerance.
Proof.
  intro Hne.
  unfold Rounded.discount_matcher_spec,
    Rounded.choose_discount_plan_to_match_price.
  remember (filter (fun p => Qle_bool (rnd (target - tolerance)) (monthly p)
                             && Qle_bool (monthly p)
                                         (rnd (target + tolerance)))
                   plans) as candidates eqn:E.
  assert (Hc : forall p, In p candidates <->
                         In p plans /\ Rounded.in_band rnd target tolerance p).
  { intro p. rewrite E. apply rounded_candidates_In. }
  clear E. split.
  - intros [p Hp]. apply Hc in Hp.
    destruct candidates as [| c0 cs] eqn:E; [contradiction |].
    destruct (sort_by_head _ _ tuple_ltb
                (fun p => (months p, Rounded.distance rnd target p))
                tuple_ltb_irrefl tuple_ltb_trans tuple_ltb_negtrans
                (c0 :: cs)) as (r & rest & Es & Hin & Hmin);
      [discriminate |].
    rewrite Es. simpl. exists r. split; [reflexivity |].
    destruct (proj1 (Hc _) Hin) as [Hr Hband].
    split; [exact Hr |]. split; [exact Hband |].
    intros c Hcin Hcband.
    assert (Hk := Hmin c (proj2 (Hc c) (conj Hcin Hcband))).
    apply tuple_ltb_ge in Hk. simpl in Hk.
    split; [lia |].
    intro Heq. destruct Hk as [Hk | [_ Hk]]; [lia | exact Hk].
  - intro Hnone. destruct candidates as [| c0 cs].
    + destruct plans as [| x rest]; [congruence |]. simpl.
      exists (min_scan Qltb (Rounded.distance rnd target) x rest).
      split; [reflexivity |]. split; [apply min_scan_In |].
      intros q Hq. apply Qltb_ge.
      apply (min_scan_least _ _ Qltb (Rounded.distance rnd target));
        [exact Qltb_irrefl | exact Qltb_trans | exact Qltb_negtrans | exact Hq].
    + exfalso. apply Hnone. exists c0. apply Hc. now left.
Qed.

Lemma choose_discount_plan_to_match_price_spec_witness :
  [mkPlan "12 månader" 12 3131.5 38172; mkPlan "24 månader" 24 1590.25 38760]
  <> []
  /\ Rounded.discount_matcher_spec (fun x => x)
       [mkPlan "12 månader" 12 3131.5 38172;
        mkPlan "24 månader" 24 1590.25 38760] 1600 50.
Proof.
  assert (H : [mkPlan "12 månader" 12 3131.5 38172;
               mkPlan "24 månader" 24 1590.25 38760] <> [])
    by discriminate.
  split;
    [exact H
    | exact (choose_discount_plan_to_match_price_spec
               (fun x => x) _ 1600 50 H)].
Defined.

(** X7.  Whenever the discount matcher returns, the plan is one of the list
    and the flag is true exactly when its monthly lies between the bounds
    the code computes. *)
Theorem discount_flag_tells_band (rnd : Q -> Q)
    (plans : list Plan) (target tolerance : Q) (r : Plan) (flag : bool) :
  Rounded.choose_discount_plan_to_match_price rnd plans target tolerance
  = Ok (r, flag) ->
  In r plans /\ (flag = true <-> Rounded.in_band rnd target tolerance r).
Proof.
  intro H. apply rounded_matcher_inversion in H.
  destruct H as [(c0 & cs & rest & E & Es & ->)
                | (x & rest & E & -> & -> & ->)].
  - destruct (sort_by_head_first _ _ tuple_ltb
                (fun p => (months p, Rounded.distance rnd target p)) _ _ _ Es)
      as (l1 & l2 & Hl & _).
    assert (Hin : In r (c0 :: cs)) by (rewrite Hl; apply in_elt).
    rewrite <- E in Hin. apply rounded_candidates_In in Hin.
    split; [apply Hin |]. split; [intros _; apply Hin | reflexivity].
  - split; [apply min_scan_In |]. split; [discriminate |].
    intro Hband. exfalso.
    assert (Hf : In (min_scan Qltb (Rounded.distance rnd target) x rest)
                    (filter (fun p =>
                               Qle_bool (rnd (target - tolerance)) (monthly p)
                               && Qle_bool (monthly p)
                                           (rnd (target + tolerance)))
                            (x :: rest))).
    { apply rounded_candidates_In. split; [apply min_scan_In | exact Hband]. }
    rewrite E in Hf. exact Hf.
Qed.

Lemma discount_flag_tells_band_witness :
  Rounded.choose_discount_plan_to_match_price (fun x => x)
    [mkPlan "12 månader" 12 3131.5 38172; mkPlan "24 månader" 24 1590.25 38760]
    1600 50
  = Ok (mkPlan "24 månader" 24 1590.25 38760, true)
  /\ In (mkPlan "24 månader" 24 1590.25 38760)
        [mkPlan "12 månader" 12 3131.5 38172;
         mkPlan "24 månader" 24 1590.25 38760]
  /\ (true = true
      <-> Rounded.in_band (fun x => x) 1600 50
                          (mkPlan "24 månader" 24 1590.25 38760)).
Proof.
  assert (H : Rounded.choose_discount_plan_to_match_price (fun x => x)
                [mkPlan "12 månader" 12 3131.5 38172;
                 mkPlan "24 månader" 24 1590.25 38760] 1600 50
              = Ok (mkPlan "24 månader" 24 1590.25 38760, true))
    by reflexivity.
  split; [exact H | exact (discount_flag_tells_band _ _ _ _ _ _ H)].
Defined.

(** X9.  When the upper bound the code computes lies below the lower bound
    it computes (a negative tolerance that rounding does not absorb), no
    plan is between them: on a non-empty list the discount matcher falls
    back to a plan with the smallest computed distance to the target and
    reports flag false. *)
Theorem negative_tolerance_falls_back (rnd : Q -> Q)
    (plans : list Plan) (target tolerance : Q) :
  rnd (target + tolerance) < rnd (target - tolerance) -> plans <> [] ->
  exists nearest,
    Rounded.choose_discount_plan_to_match_price rnd plans target tolerance
    = Ok (nearest, false)
    /\ In nearest plans
    /\ forall q, In q plans ->
                 Rounded.distance rnd target nearest
                 <= Rounded.distance rnd target q.
Proof.
  intros Htol Hne. unfold Rounded.choose_discount_plan_to_match_price.
  destruct (filter _ plans) as [| c0 cs] eqn:E.
  - destruct plans as [| x rest]; [congruence |]. simpl.
    exists (min_scan Qltb (Rounded.distance rnd target) x rest).
    split; [reflexivity |]. split; [apply min_scan_In |].
    intros q Hq. apply Qltb_ge.
    apply (min_scan_least _ _ Qltb (Rounded.distance rnd target));
      [exact Qltb_irrefl | exact Qltb_trans | exact Qltb_negtrans | exact Hq].
  - exfalso. assert (Hin : In c0 (c0 :: cs)) by now left.
    rewrite <- E in Hin. apply rounded_candidates_In in Hin.
    destruct Hin as [_ [Hlo Hhi]].
    exact (Qlt_irrefl _ (Qlt_le_trans _ _ _ Htol (Qle_trans _ _ _ Hlo Hhi))).
Qed.

Lemma negative_tolerance_falls_back_witness :
  3131.5 + -(1) < 3131.5 - -(1)
  /\ [mkPlan "12 månader" 12 3131.5 38172] <> []
  /\ exists nearest,
       Rounded.choose_discount_plan_to_match_price (fun x => x)
         [mkPlan "12 månader" 12 3131.5 38172] 3131.5 (-(1))
       = Ok (nearest, false)
       /\ In nearest [mkPlan "12 månader" 12 3131.5 38172]
       /\ forall q, In q [mkPlan "12 månader" 12 3131.5 38172] ->
                    Rounded.distance (fun x => x) 3131.5 nearest
                    <= Rounded.distance (fun x => x) 3131.5 q.
Proof.
  assert (H1 : 3131.5 + -(1) < 3131.5 - -(1)) by reflexivity.
  assert (H2 : [mkPlan "12 månader" 12 3131.5 38172] <> []) by discriminate.
  split; [exact H1 |]. split; [exact H2 |].
  exact (negative_tolerance_falls_back (fun x => x) _ 3131.5 (-(1)) H1 H2).
Defined.

(** ** The budget matcher on generated plans *)

Lemma rounded_plans_antitone (rnd : Q -> Q) (fa : Q)
    (plans : list Plan) (p q : Plan) :
  monotone rnd -> 0 <= fa ->
  Rounded.compute_plans rnd fa = Ok plans -> In p plans -> In q plans ->
  (months p <= months q)%Z -> monthly q <= monthly p.
Proof.
  intros Hmono Hfa E Hp Hq Hle.
  assert (Rp := rounded_plans_months_range _ _ _ _ E Hp).
  rewrite (rounded_plans_monthly _ _ _ _ E Hp),
    (rounded_plans_monthly _ _ _ _ E Hq).
  apply rounded_monthly_antitone; [exact Hmono | exact Hfa | lia | exact Hle].
Qed.

(** Around any plan of the generated list, the plans before it have shorter
    terms and the plans after it longer ones. *)
Lemma rounded_plans_split_months (rnd : Q -> Q) (fa : Q)
    (plans l1 l2 : list Plan) (x : Plan) :
  Rounded.compute_plans rnd fa = Ok plans ->
  plans = (l1 ++ x :: l2)%list ->
  (forall q, In q l1 -> (months q < months x)%Z)
  /\ (forall q, In q l2 -> (months x < months q)%Z).
Proof.
  intros E Hl.
  assert (Hx : nth_error plans (List.length l1) = Some x).
  { rewrite Hl, nth_error_app2, Nat.sub_diag; [reflexivity | lia]. }
  split; intros q Hq; destruct (In_nth_error _ _ Hq) as [n Hn].
  - assert (Hlt : (n < List.length l1)%nat)
      by (apply nth_error_Some; rewrite Hn; discriminate).
    apply (rounded_plans_months_increasing rnd fa plans n (List.length l1));
      [exact E | exact Hlt | | exact Hx].
    rewrite Hl, nth_error_app1; [exact Hn | exact Hlt].
  - apply (rounded_plans_months_increasing rnd fa plans
             (List.length l1) (S (List.length l1 + n)));
      [exact E | lia | exact Hx |].
    rewrite Hl, nth_error_app2; [| lia].
    replace (S (List.length l1 + n) - List.length l1)%nat with (S n) by lia.
    exact Hn.
Qed.

(** X6.  On the plans generated for a financed amount >= 0 the budget
    matcher returns, when some plan is affordable, the affordable plan with
    the shortest term; when none is, the plan with the shortest term among
    those with the lowest monthly payment, which is the payment of the
    120-month plan. *)
Theorem budget_matcher_on_generated_plans (rnd : Q -> Q)
    (financed_amount budget : Q) :
  monotone rnd -> 0 <= financed_amount ->
  exists plans best status,
    Rounded.compute_plans rnd financed_amount = Ok plans
    /\ choose_best_plan_for_budget plans budget = Ok (best, status)
    /\ In best plans
    /\ ((status = "within"
         /\ monthly best <= budget
         /\ forall q, In q plans -> monthly q <= budget ->
                      (months best <= months q)%Z)
        \/ (status = "above"
            /\ (forall q, In q plans ->
                          budget < monthly q
                          /\ monthly best <= monthly q
                          /\ (monthly q == monthly best ->
                              (months best <= months q)%Z))
            /\ exists p120,
                 nth_error plans 6 = Some p120 /\ months p120 = 120%Z
                 /\ monthly best == monthly p120)).
Proof.
  intros Hmono Hfa.
  destruct (rounded_plans_total rnd financed_amount) as [plans [E Hne]].
  destruct (choose_best_plan_for_budget_total plans budget Hne)
    as [[best status] Hc].
  exists plans, best, status. split; [exact E |]. split; [exact Hc |].
  apply budget_matcher_inversion in Hc.
  destruct Hc as [(u & us & Ef & -> & ->) | (x & rest & Ef & Hx & -> & ->)].
  - assert (Hin := max_scan_In _ _ Qltb monthly us u).
    rewrite <- Ef in Hin. apply under_or_equal_In in Hin.
    destruct Hin as [Hin Hle]. split; [exact Hin |].
    left. split; [reflexivity |]. split; [exact Hle |].
    destruct (max_scan_first _ _ Qltb monthly
                Qltb_irrefl Qltb_trans Qltb_negtrans us u)
      as (f1 & f2 & Hf & Hall).
    rewrite Hf in Ef.
    destruct (filter_split _ _ _ _ _ _ Ef) as (l1 & l2 & Hl & H1 & _).
    destruct (rounded_plans_split_months _ _ _ _ _ _ E Hl) as [Hbefore Hafter].
    intros q Hq Hqle. rewrite Hl in Hq. apply in_app_or in Hq.
    destruct Hq as [Hq | [<- | Hq]];
      [exfalso | lia | apply Z.lt_le_incl, Hafter; exact Hq].
    assert (Hlt : monthly q < monthly (max_scan Qltb monthly u us)).
    { apply Qltb_lt. apply (proj1 (Forall_forall _ _) Hall).
      rewrite <- H1. apply under_or_equal_In. now split. }
    assert (Hqin : In q plans) by (rewrite Hl; apply in_or_app; now left).
    assert (Hge := rounded_plans_antitone _ _ _ _ _ Hmono Hfa E Hqin Hin
                     (Z.lt_le_incl _ _ (Hbefore q Hq))).
    exact (Qlt_not_le _ _ Hlt Hge).
  - assert (Hin : In (min_scan Qltb monthly x rest) plans).
    { rewrite Hx. apply min_scan_In. }
    split; [exact Hin |]. right. split; [reflexivity |].
    assert (Hleast : forall q, In q plans ->
                               monthly (min_scan Qltb monthly x rest)
                               <= monthly q).
    { intros q Hq. apply Qltb_ge. apply min_scan_least;
        [exact Qltb_irrefl | exact Qltb_trans | exact Qltb_negtrans |].
      rewrite <- Hx. exact Hq. }
    destruct (min_scan_first _ _ Qltb monthly
                Qltb_irrefl Qltb_trans Qltb_negtrans rest x)
      as (l1 & l2 & Hl & Hall).
    rewrite <- Hx in Hl.
    destruct (rounded_plans_split_months _ _ _ _ _ _ E Hl) as [_ Hafter].
    split.
    + intros q Hq. split; [| split; [exact (Hleast q Hq) |]].
      * apply Qnot_le_lt. intro Hle.
        assert (Hf : In q (filter (fun p => Qle_bool (monthly p) budget)
                                  plans))
          by (apply under_or_equal_In; now split).
        rewrite Ef in Hf. exact Hf.
      * intro Heq. rewrite Hl in Hq. apply in_app_or in Hq.
        destruct Hq as [Hq | [<- | Hq]];
          [exfalso | lia | apply Z.lt_le_incl, Hafter; exact Hq].
        assert (Hlt := proj1 (Forall_forall _ _) Hall q Hq).
        apply Qltb_lt in Hlt. rewrite Heq in Hlt.
        exact (Qlt_irrefl _ Hlt).
    + destruct (rounded_plans_seven _ _ _ E)
        as (p1 & p2 & p3 & p4 & p5 & p6 & p7 & Hs & _ & _ & _ & _ & _ & _
            & H7).
      assert (H7in : In p7 plans) by (rewrite Hs; now do 6 right; left).
      exists p7. split; [rewrite Hs; reflexivity |]. split; [exact H7 |].
      apply Qle_antisym; [exact (Hleast p7 H7in) |].
      apply (rounded_plans_antitone _ _ _ _ _ Hmono Hfa E Hin H7in).
      rewrite H7. apply (rounded_plans_months_range _ _ _ _ E Hin).
Qed.

Lemma budget_matcher_on_generated_plans_witness :
  monotone (fun x => x) /\ 0 <= 36990
  /\ exists plans best status,
       Rounded.compute_plans (fun x => x) 36990 = Ok plans
       /\ choose_best_plan_for_budget plans 800 = Ok (best, status)
       /\ In best plans
       /\ ((status = "within"
            /\ monthly best <= 800
            /\ forall q, In q plans -> monthly q <= 800 ->
                         (months best <= months q)%Z)
           \/ (status = "above"
               /\ (forall q, In q plans ->
                             800 < monthly q
                             /\ monthly best <= monthly q
                             /\ (monthly q == monthly best ->
                                 (months best <= months q)%Z))
               /\ exists p120,
                    nth_error plans 6 = Some p120 /\ months p120 = 120%Z
                    /\ monthly best == monthly p120)).
Proof.
  assert (H : 0 <= 36990) by (unfold Qle; simpl; lia).
  split; [exact exact_monotone |]. split; [exact H |].
  exact (budget_matcher_on_generated_plans
           (fun x => x) 36990 800 exact_monotone H).
Defined.

(** ** The monthly chart *)

(** X19.  For a generated plan the charted STL monthly cost is, rounded to
    two decimals as the code does, the plan's monthly cost for the whole
    years of its term (term div 12 of them) and the service cost for the
    remaining years up to 15; the 3-month plan is charted at the service
    cost from year 1. *)
Theorem stl_monthly_curve_of_generated_plan (rnd round2 : Q -> Q)
    (financed_amount : Q) :
  exists plans,
    Rounded.compute_plans rnd financed_amount = Ok plans
    /\ forall p,
         In p plans ->
         stl_monthly_curve round2 p
         = (repeat (round2 (monthly p)) (Z.to_nat (months p / 12))
            ++ repeat (round2 SERVICE_MONTHLY)
                      (15 - Z.to_nat (months p / 12)))%list.
Proof.
  destruct (rounded_plans_total rnd financed_amount) as [plans [E _]].
  exists plans. split; [exact E |]. intros p Hp.
  destruct (rounded_plans_seven _ _ _ E)
    as (p1 & p2 & p3 & p4 & p5 & p6 & p7 & -> & H1 & H2 & H3 & H4 & H5
        & H6 & H7).
  unfold stl_monthly_curve.
  simpl in Hp.
  destruct Hp as [<- | [<- | [<- | [<- | [<- | [<- | [<- | []]]]]]]].
  - rewrite H1. reflexivity.
  - rewrite H2. reflexivity.
  - rewrite H3. reflexivity.
  - rewrite H4. reflexivity.
  - rewrite H5. reflexivity.
  - rewrite H6. reflexivity.
  - rewrite H7. reflexivity.
Qed.

(** ** The total cost with rounding *)

(** Four roundings lie between the financed amount and the total; each
    moves its result by at most the fraction 2^-53. *)
Lemma rounded_total_bounds (rnd : Q -> Q) (fa : Q) (n : Z) :
  nearly_exact rnd -> 1 <= fa -> fa <= 1000000000000000 ->
  In n [3; 12; 24; 36; 60; 72; 120]%Z ->
  (1 - 5 * unit_roundoff) * (fa + 49 * inject_Z n + 594)
  <= rnd (rnd (rnd (rnd (fa / inject_Z n) + 49) * inject_Z n) + 594)
  /\ rnd (rnd (rnd (rnd (fa / inject_Z n) + 49) * inject_Z n) + 594)
     <= (1 + 5 * unit_roundoff) * (fa + 49 * inject_Z n + 594).
Proof.
  intros Hrnd Hlo Hhi Hn.
  destruct min_normal_small as [_ Hmin]. assert (Hmax := max_float_large).
  assert (Hcase :
            forall k : Q,
              3 <= k -> k <= 120 -> k * (fa / k) == fa ->
              (1 - 5 * unit_roundoff) * (fa + 49 * k + 594)
              <= rnd (rnd (rnd (rnd (fa / k) + 49) * k) + 594)
              /\ rnd (rnd (rnd (rnd (fa / k) + 49) * k) + 594)
                 <= (1 + 5 * unit_roundoff) * (fa + 49 * k + 594)).
  { intros k K3 K120 Hk.
    remember (fa / k) as x eqn:Ex. clear Ex.
    assert (Hx1 : 1 # 120 <= x) by nra.
    assert (Hx2 : x <= fa) by nra.
    destruct (Hrnd x ltac:(lra) ltac:(lra)) as [A1 A2].
    unfold unit_roundoff in *.
    destruct (Hrnd (rnd x + 49) ltac:(lra) ltac:(lra)) as [B1 B2].
    unfold unit_roundoff in *.
    remember (rnd (rnd x + 49)) as m eqn:Em. clear Em.
    assert (Hm1 : 49 <= m + 1) by lra.
    assert (Hm2 : m <= 2 * fa + 50) by lra.
    destruct (Hrnd (m * k) ltac:(nra) ltac:(nra)) as [C1 C2].
    unfold unit_roundoff in *.
    remember (rnd (m * k)) as t eqn:Et. clear Et.
    assert (Ht1 : 100 <= t) by nra.
    assert (Ht2 : t <= 300 * fa + 10000) by nra.
    destruct (Hrnd (t + 594) ltac:(lra) ltac:(lra)) as [D1 D2].
    unfold unit_roundoff in *.
    remember (rnd (t + 594)) as r eqn:Er. clear Er.
    remember (rnd x) as y eqn:Ey. clear Ey.
    split; nra. }
  simpl in Hn.
  destruct Hn as [<- | [<- | [<- | [<- | [<- | [<- | [<- | []]]]]]]];
    match goal with
    | |- context [inject_Z ?c] =>
        change (inject_Z c) with (c # 1);
        apply Hcase; [discriminate | discriminate | field]
    end.
Qed.

Lemma rounded_plans_months_listed (rnd : Q -> Q) (fa : Q)
    (plans : list Plan) (p : Plan) :
  Rounded.compute_plans rnd fa = Ok plans -> In p plans ->
  In (months p) [3; 12; 24; 36; 60; 72; 120]%Z.
Proof.
  intros E Hp.
  destruct (rounded_plans_seven _ _ _ E)
    as (p1 & p2 & p3 & p4 & p5 & p6 & p7 & -> & H1 & H2 & H3 & H4 & H5
        & H6 & H7).
  simpl in Hp.
  destruct Hp as [<- | [<- | [<- | [<- | [<- | [<- | [<- | []]]]]]]];
    simpl; auto 10.
Qed.

Lemma rounded_plans_total_bounds (rnd : Q -> Q) (fa : Q)
    (plans : list Plan) (p : Plan) :
  nearly_exact rnd -> 1 <= fa -> fa <= 1000000000000000 ->
  Rounded.compute_plans rnd fa = Ok plans -> In p plans ->
  (1 - 5 * unit_roundoff) * (fa + 49 * inject_Z (months p) + 594) <= total p
  /\ total p
     <= (1 + 5 * unit_roundoff) * (fa + 49 * inject_Z (months p) + 594).
Proof.
  intros Hrnd Hlo Hhi E Hp.
  assert (Hn := rounded_plans_months_listed _ _ _ _ E Hp).
  assert (Hf := proj1 (Forall_forall _ _)
                      (rounded_plans_over_plan rnd _ _ _ E) p Hp).
  destruct Hf as [Hm Ht]. rewrite Ht, Hm.
  exact (rounded_total_bounds rnd fa (months p) Hrnd Hlo Hhi Hn).
Qed.

(** In binary64 the total of the 12-month plan for 48590 is not
    48590 + 49 * 12 + 594 = 49772 but the float just below it. *)
Lemma binary64_total_48590_over_12_months :
  exists p,
    nth_error (Binary64.compute_plans 48590) 1 = Some p
    /\ Binary64.fmonths p = 12%Z
    /\ Binary64.ftotal p = 0x1.84d7fffffffffp+15%float
    /\ (Binary64.ftotal p <? 49772)%float = true.
Proof.
  eexists. split; [vm_compute; reflexivity |]. repeat split.
Qed.

(** X1.  For a financed amount between 1 and 10^15 the total of every
    generated plan is the financed amount plus the admin fee of every
    month plus the start fee, up to the rounding of the four float
    operations in between: a relative error of at most 5 * 2^-53. *)
Theorem compute_plans_total_near_amount_plus_fees (rnd : Q -> Q)
    (financed_amount : Q) :
  nearly_exact rnd ->
  1 <= financed_amount -> financed_amount <= 1000000000000000 ->
  exists plans,
    Rounded.compute_plans rnd financed_amount = Ok plans
    /\ Forall (fun p =>
                 (1 - 5 * unit_roundoff)
                 * (financed_amount + 49 * inject_Z (months p) + 594)
                 <= total p
                 /\ total p
                    <= (1 + 5 * unit_roundoff)
                       * (financed_amount + 49 * inject_Z (months p) + 594))
              plans.
Proof.
  intros Hrnd Hlo Hhi.
  destruct (rounded_plans_total rnd financed_amount) as [plans [E _]].
  exists plans. split; [exact E |].
  apply Forall_forall. intros p Hp.
  exact (rounded_plans_total_bounds _ _ _ _ Hrnd Hlo Hhi E Hp).
Qed.

Lemma compute_plans_total_near_amount_plus_fees_witness :
  nearly_exact (fun x => x)
  /\ 1 <= 36990 /\ 36990 <= 1000000000000000
  /\ exists plans,
       Rounded.compute_plans (fun x => x) 36990 = Ok plans
       /\ Forall (fun p =>
                    (1 - 5 * unit_roundoff)
                    * (36990 + 49 * inject_Z (months p) + 594)
                    <= total p
                    /\ total p
                       <= (1 + 5 * unit_roundoff)
                          * (36990 + 49 * inject_Z (months p) + 594))
                 plans.
Proof.
  assert (H1 : 1 <= 36990) by (unfold Qle; simpl; lia).
  assert (H2 : 36990 <= 1000000000000000) by (unfold Qle; simpl; lia).
  split; [exact exact_nearly_exact |]. split; [exact H1 |].
  split; [exact H2 |].
  exact (compute_plans_total_near_amount_plus_fees
           (fun x => x) 36990 exact_nearly_exact H1 H2).
Defined.

(** X2.  For a financed amount between 1 and 10^15, of two generated plans
    the one with the longer term costs more in total: the 49 of one more
    month outweighs the rounding. *)
Theorem compute_plans_total_grows_with_term (rnd : Q -> Q)
    (financed_amount : Q) :
  nearly_exact rnd ->
  1 <= financed_amount -> financed_amount <= 1000000000000000 ->
  exists plans,
    Rounded.compute_plans rnd financed_amount = Ok plans
    /\ forall p q,
         In p plans -> In q plans ->
         (months p < months q)%Z -> total p < total q.
Proof.
  intros Hrnd Hlo Hhi.
  destruct (rounded_plans_total rnd financed_amount) as [plans [E _]].
  exists plans. split; [exact E |].
  intros p q Hp Hq Hlt.
  destruct (rounded_plans_total_bounds _ _ _ _ Hrnd Hlo Hhi E Hp) as [_ Up].
  destruct (rounded_plans_total_bounds _ _ _ _ Hrnd Hlo Hhi E Hq) as [Lq _].
  assert (Rp := rounded_plans_months_range _ _ _ _ E Hp).
  assert (Rq := rounded_plans_months_range _ _ _ _ E Hq).
  assert (Hgap : inject_Z (months p) + 1 <= inject_Z (months q)).
  { change 1 with (inject_Z 1). rewrite <- inject_Z_plus, <- Zle_Qle. lia. }
  assert (Hp3 : 3 <= inject_Z (months p))
    by (change 3 with (inject_Z 3); rewrite <- Zle_Qle; lia).
  assert (Hq120 : inject_Z (months q) <= 120)
    by (change 120 with (inject_Z 120); rewrite <- Zle_Qle; lia).
  remember (inject_Z (months p)) as a eqn:Ea. clear Ea.
  remember (inject_Z (months q)) as b eqn:Eb. clear Eb.
  unfold unit_roundoff in *.
  lra.
Qed.

Lemma compute_plans_total_grows_with_term_witness :
  nearly_exact (fun x => x)
  /\ 1 <= 36990 /\ 36990 <= 1000000000000000
  /\ exists plans,
       Rounded.compute_plans (fun x => x) 36990 = Ok plans
       /\ forall p q,
            In p plans -> In q plans ->
            (months p < months q)%Z -> total p < total q.
Proof.
  assert (H1 : 1 <= 36990) by (unfold Qle; simpl; lia).
  assert (H2 : 36990 <= 1000000000000000) by (unfold Qle; simpl; lia).
  split; [exact exact_nearly_exact |]. split; [exact H1 |].
  split; [exact H2 |].
  exact (compute_plans_total_grows_with_term
           (fun x => x) 36990 exact_nearly_exact H1 H2).
Defined.
